(** * rl4co: Reptile meta-training callback and JSSP action masking

    A shallow embedding of
    - [rl4co/utils/meta_trainer.py] (class [ReptileCallback]),
    - [rl4co/envs/scheduling/jssp/env.py] (class [JSSPEnv]),
    - [rl4co/envs/routing/cvrp/baselines/pyvrp.py] ([solution2action]),
    - [rl4co/models/zoo/jssp/policy.py] ([L2DPolicy.forward]), and
    - [rl4co/models/nn/graph/gcn.py] ([GraphConvolution], [GCNEncoder]),
    together with the properties their specification states about them
    and further properties of the code.

    Conventions of the embedding.
    - Python [int]s are [Z]; [%] is [Z.modulo] (the sign follows the divisor
      in both languages) with [ZeroDivisionError] written out.
    - Python [float]s and the entries of torch tensors are exact rationals
      [Qc]; an [int64] tensor holds integers. On the values [.float()] is
      the identity.
    - A tensor is the list of its entries and its shape is its length.
    - A [state_dict] is a finite map from parameter names to tensors. A
      module records the dtype of each of its tensors, and what is copied
      into an [int64] tensor is truncated towards zero.
    - Methods of the callback are computations in a state-and-exception
      monad over the objects the callback touches; an attribute that a
      method reads before any method has assigned it raises
      [AttributeError].
    - Of a [print] only the attribute reads that can raise are kept. *)

From Stdlib Require Import ZArith QArith Qcanon Qround Lia.
From stdpp Require Import base decidable option list numbers strings gmap fin_maps.

Local Open Scope Z_scope.

(** * Exceptions and results *)

Inductive exn : Set :=
  | KeyError | IndexError | AttributeError | ValueError
  | RuntimeError | ZeroDivisionError | NotImplementedError.

Inductive result (A : Type) : Type :=
  | Ok (a : A)
  | Error (e : exn).
Arguments Ok {A} a.
Arguments Error {A} e.

Global Instance exn_eq_dec : EqDecision exn.
Proof. solve_decision. Defined.
Global Instance result_eq_dec {A} `{EqDecision A} : EqDecision (result A).
Proof. solve_decision. Defined.

Global Instance result_ret : MRet result := λ A a, Ok a.
Global Instance result_bind : MBind result := λ A B f r,
  match r with Ok a => f a | Error e => Error e end.
Global Instance result_fmap : FMap result := λ A B f r,
  match r with Ok a => Ok (f a) | Error e => Error e end.

Definition is_Ok {A} (r : result A) : Prop := ∃ a, r = Ok a.
Definition is_Error {A} (r : result A) : Prop := ∃ e, r = Error e.

(** [traverse f l]: evaluate [f] on the elements of [l] from left to right,
    stopping at the first exception. *)
Fixpoint traverse {A B} (f : A → result B) (l : list A) : result (list B) :=
  match l with
  | [] => Ok []
  | a :: l => b ← f a; bs ← traverse f l; Ok (b :: bs)
  end.

(** Python's [max(a, b)] on floats: [b] if [b > a], else [a]. *)
Definition py_max (a b : Qc) : Qc := if decide (a < b)%Qc then b else a.

(** Python's [int(x)] on a float: truncation towards zero. *)
Definition py_int (x : Qc) : Z :=
  if decide (0 ≤ x)%Qc then Qfloor x else Qceiling x.

(** Python's [math.ceil]. *)
Definition py_ceil (x : Qc) : Z := Qceiling x.

(** Python's [l[i]]: negative indices count from the end. *)
Definition py_getitem {A} (l : list A) (i : Z) : result A :=
  let n := Z.of_nat (length l) in
  let j := if decide (i < 0) then n + i else i in
  if decide (0 ≤ j < n)
  then match l !! Z.to_nat j with Some a => Ok a | None => Error IndexError end
  else Error IndexError.

(** Python's [l[i] = x]. *)
Definition py_setitem {A} (l : list A) (i : Z) (x : A) : result (list A) :=
  let n := Z.of_nat (length l) in
  let j := if decide (i < 0) then n + i else i in
  if decide (0 ≤ j < n) then Ok (<[Z.to_nat j := x]> l) else Error IndexError.

(** Python's [range(a, b)]. *)
Definition py_range (a b : Z) : list Z := seqZ a (b - a).

(** * Tensors *)

(** A tensor: the list of its entries. *)
Abbreviation tensor := (list Qc).

Module Tensor.

Definition qsum (l : list Qc) : Qc := foldr Qcplus 0%Qc l.

(** [a - b] for tensors of one shape. (Broadcasting of singleton
    dimensions is not modelled: the tensors of one key of the state
    dicts of one module all have the same shape.) *)
Definition sub (a b : tensor) : result tensor :=
  if decide (length a = length b)
  then Ok (zip_with Qcminus a b) else Error RuntimeError.

Definition add (a b : tensor) : result tensor :=
  if decide (length a = length b)
  then Ok (zip_with Qcplus a b) else Error RuntimeError.

(** [alpha * t] for a Python float [alpha]. *)
Definition scale (a : Qc) (t : tensor) : tensor := Qcmult a <$> t.

(** [torch.stack(ts, dim=0)]: a non-empty list of tensors of one shape,
    as the list of its rows. *)
Definition stack (ts : list tensor) : result (list tensor) :=
  match ts with
  | [] => Error RuntimeError
  | t :: _ =>
      if decide (Forall (λ u, length u = length t) ts)
      then Ok ts else Error RuntimeError
  end.

(** [torch.mean(rows, dim=0)] of a stacked tensor: the entry-wise sum of
    the rows divided by their number. *)
Definition column (rows : list tensor) (i : nat) : list Qc :=
  (λ r, default 0%Qc (r !! i)) <$> rows.

Definition mean0 (rows : list tensor) : tensor :=
  match rows with
  | [] => []
  | t :: _ =>
      (λ i, (qsum (column rows i) / Qc_of_Z (Z.of_nat (length rows)))%Qc)
        <$> seq 0 (length t)
  end.

(** [torch.softmax(t, dim=0)], over the exponential [exp] of the tensor
    library. *)
Definition softmax (exp : Qc → Qc) (t : tensor) : tensor :=
  (λ x, (exp x / qsum (exp <$> t))%Qc) <$> t.

End Tensor.

Abbreviation state_dict := (gmap string tensor).

(** * The Reptile callback *)

Module Reptile.

(** The dict comprehension [{k: f(k) for k in d}]. The keys are visited in
    the order of the map, which need not be the insertion order of the
    Python dict; the order decides only which exception surfaces when
    several keys raise. *)
Definition dict_comp (f : string → tensor → result tensor) (d : state_dict)
  : result state_dict :=
  kvs ← traverse (λ kv, v ← f kv.1 kv.2; Ok (kv.1, v)) (map_to_list d);
  Ok (list_to_map kvs).

(** [d[k]] on a dict. *)
Definition dict_getitem (d : state_dict) (k : string) : result tensor :=
  match d !! k with Some t => Ok t | None => Error KeyError end.

(** The outer-loop expression of [on_train_epoch_end] for one key:
    [meta[k] + alpha * torch.mean(torch.stack([fw[k] - meta[k] for fw in
    task_models], dim=0).float(), dim=0)]; [task_delta] is the element
    [fw[k] - meta[k]] of the list comprehension. *)
Definition task_delta (meta : state_dict) (params_key : string)
    (fast_weight : state_dict) : result tensor :=
  x ← dict_getitem fast_weight params_key;
  m ← dict_getitem meta params_key;
  Tensor.sub x m.

Definition outer_entry (alpha : Qc) (meta : state_dict)
    (task_models : list state_dict) (params_key : string) : result tensor :=
  m ← dict_getitem meta params_key;
  deltas ← traverse (task_delta meta params_key) task_models;
  rows ← Tensor.stack deltas;
  Tensor.add m (Tensor.scale alpha (Tensor.mean0 rows)).

Definition outer_state_dict (alpha : Qc) (meta : state_dict)
    (task_models : list state_dict) : result state_dict :=
  dict_comp (λ params_key _, outer_entry alpha meta task_models params_key) meta.

(** ** The objects the callback works on *)

(** A task is the one-tuple [(n,)]. *)
Record task : Set := Task { item0 : Z }.

(** [pl_module.env.generator]: [capacity] is [None] when the generator
    has no such attribute. *)
Record generator : Set := Generator {
  num_loc : Z;
  capacity : option Z
}.

(** The callback object. The attributes that [__init__] does not create
    are [None] until a method assigns them. *)
Record callback : Type := Callback {
  num_tasks : Z;
  alpha : Qc;
  alpha_decay : Qc;
  sch_bar : Qc;
  print_log : bool;
  task_set : list task;
  selected_tasks : option (list task);
  w : option tensor;
  meta_model_state_dict : option state_dict;
  task_models : option (list state_dict)
}.

(** The dtype of a tensor of the module: floating point, or [int64] as
    the buffer [num_batches_tracked] of a batch normalisation has it. *)
Inductive dtype : Set := float32 | int64.

Global Instance dtype_eq_dec : EqDecision dtype.
Proof. solve_decision. Defined.

(** The conversion of a tensor to a dtype, as [Tensor.copy_] and
    [Tensor.to] do it: a value becomes an [int64] by truncation towards
    zero. *)
Definition to_dtype (d : dtype) (t : tensor) : tensor :=
  match d with
  | float32 => t
  | int64 => (λ x, Qc_of_Z (py_int x)) <$> t
  end.

(** [pl_module]: the tensors of its parameters and buffers, the dtypes
    of those that are not floating point, and the generator of its
    environment. *)
Record pl_module : Type := Module_ {
  data : state_dict;
  dtypes : gmap string dtype;
  env_generator : generator
}.

(** A module whose tensors are all floating point. *)
Definition PlModule (params : state_dict) (g : generator) : pl_module :=
  Module_ params ∅ g.

Definition dtype_of (m : pl_module) (k : string) : dtype :=
  default float32 (dtypes m !! k).

(** A state dict with every tensor in the dtype the module has for its
    key. *)
Definition to_dtypes (m : pl_module) (sd : state_dict) : state_dict :=
  map_imap (λ k t, Some (to_dtype (dtype_of m k) t)) sd.

(** What [state_dict()] returns: the tensors of the module, each in its
    dtype. A tensor of dtype [int64] holds integers: what [data] records
    under its key is read truncated. *)
Definition params (m : pl_module) : state_dict := to_dtypes m (data m).

(** [trainer]: the epoch counter, the epoch budget and the learning rate
    of [trainer.optimizers[0]]. *)
Record trainer : Set := Trainer {
  current_epoch : Z;
  max_epochs : Z;
  lr : Qc
}.

(** Everything a method can read or write; [draws] counts the calls of
    the random generator. *)
Record world : Type := World {
  self : callback;
  module : pl_module;
  trn : trainer;
  draws : nat
}.

Global Instance task_eq_dec : EqDecision task.
Proof. solve_decision. Defined.
Global Instance generator_eq_dec : EqDecision generator.
Proof. solve_decision. Defined.
Global Instance callback_eq_dec : EqDecision callback.
Proof. solve_decision. Defined.
Global Instance pl_module_eq_dec : EqDecision pl_module.
Proof. solve_decision. Defined.
Global Instance trainer_eq_dec : EqDecision trainer.
Proof. solve_decision. Defined.
Global Instance world_eq_dec : EqDecision world.
Proof. solve_decision. Defined.

Definition with_self (f : callback → callback) (σ : world) : world :=
  World (f (self σ)) (module σ) (trn σ) (draws σ).
Definition with_module (f : pl_module → pl_module) (σ : world) : world :=
  World (self σ) (f (module σ)) (trn σ) (draws σ).
Definition with_trainer (f : trainer → trainer) (σ : world) : world :=
  World (self σ) (module σ) (f (trn σ)) (draws σ).

Definition set_alpha (a : Qc) (c : callback) : callback :=
  Callback (num_tasks c) a (alpha_decay c) (sch_bar c) (print_log c)
    (task_set c) (selected_tasks c) (w c) (meta_model_state_dict c)
    (task_models c).
Definition set_selected_tasks (l : list task) (c : callback) : callback :=
  Callback (num_tasks c) (alpha c) (alpha_decay c) (sch_bar c) (print_log c)
    (task_set c) (Some l) (w c) (meta_model_state_dict c) (task_models c).
Definition set_w (t : tensor) (c : callback) : callback :=
  Callback (num_tasks c) (alpha c) (alpha_decay c) (sch_bar c) (print_log c)
    (task_set c) (selected_tasks c) (Some t) (meta_model_state_dict c)
    (task_models c).
Definition set_meta_model_state_dict (d : state_dict) (c : callback)
  : callback :=
  Callback (num_tasks c) (alpha c) (alpha_decay c) (sch_bar c) (print_log c)
    (task_set c) (selected_tasks c) (w c) (Some d) (task_models c).
Definition set_task_models (l : list state_dict) (c : callback) : callback :=
  Callback (num_tasks c) (alpha c) (alpha_decay c) (sch_bar c) (print_log c)
    (task_set c) (selected_tasks c) (w c) (meta_model_state_dict c) (Some l).

Definition set_params (d : state_dict) (m : pl_module) : pl_module :=
  Module_ d (dtypes m) (env_generator m).
Definition set_num_loc (n : Z) (m : pl_module) : pl_module :=
  Module_ (data m) (dtypes m) (Generator n (capacity (env_generator m))).
Definition set_capacity (c : Z) (m : pl_module) : pl_module :=
  Module_ (data m) (dtypes m)
    (Generator (num_loc (env_generator m)) (Some c)).
Definition set_lr (x : Qc) (t : trainer) : trainer :=
  Trainer (current_epoch t) (max_epochs t) x.

(** ** The monad of methods *)

Inductive outcome (A : Type) : Type :=
  | Returns (a : A) (σ : world)
  | Raises (e : exn) (σ : world).
Arguments Returns {A} a σ.
Arguments Raises {A} e σ.

Global Instance outcome_eq_dec {A} `{EqDecision A} : EqDecision (outcome A).
Proof. solve_decision. Defined.

Definition M (A : Type) : Type := world → outcome A.

Definition ret {A} (a : A) : M A := λ σ, Returns a σ.
Definition bind {A B} (m : M A) (f : A → M B) : M B := λ σ,
  match m σ with
  | Returns a σ' => f a σ'
  | Raises e σ' => Raises e σ'
  end.
Definition raise {A} (e : exn) : M A := λ σ, Raises e σ.
Definition get {A} (f : world → A) : M A := λ σ, Returns (f σ) σ.
Definition modify (f : world → world) : M unit := λ σ, Returns tt (f σ).

Global Instance M_ret : MRet M := @ret.
Global Instance M_bind : MBind M := λ A B f m, bind m f.

(** A pure computation that may raise. *)
Definition lift {A} (r : result A) : M A :=
  match r with Ok a => ret a | Error e => raise e end.

(** Reading an attribute that may not exist yet. *)
Definition getattr {A} (f : callback → option A) : M A := λ σ,
  match f (self σ) with
  | Some a => Returns a σ
  | None => Raises AttributeError σ
  end.

(** [for x in l: body(x)]. *)
Fixpoint for_ {A} (l : list A) (body : A → M unit) : M unit :=
  match l with
  | [] => ret tt
  | x :: l => body x;; for_ l body
  end.

Definition when (b : bool) (m : M unit) : M unit := if b then m else ret tt.

(** [n] calls of [m] in a row. *)
Fixpoint times (n : nat) (m : M unit) : M unit :=
  match n with
  | O => ret tt
  | S n => m;; times n m
  end.

(** [a % b] on Python ints. *)
Definition py_mod (a b : Z) : M Z :=
  if decide (b = 0) then raise ZeroDivisionError else ret (a mod b).

(** ** The model boundary *)

(** [pl_module.state_dict()] followed by [copy.deepcopy]: the value. *)
Definition state_dict_ : M state_dict := get (λ σ, params (module σ)).

(** [pl_module.load_state_dict(sd)] in its default strict mode: the
    entries of [sd] whose key and shape fit are copied into the module,
    each into the dtype [dt] that the module's tensor of that key has; a
    missing key, an unexpected key or a shape mismatch then raises
    [RuntimeError]. *)
Definition loaded (dt : string → dtype) (sd old : state_dict) : state_dict :=
  map_imap (λ k v, Some (match sd !! k with
                         | Some v' => if decide (length v' = length v)
                                      then to_dtype (dt k) v' else v
                         | None => v
                         end)) old.

Definition strict_ok (sd old : state_dict) : Prop :=
  map_Forall (λ k v, length <$> sd !! k = Some (length v)) old
  ∧ map_Forall (λ k _, is_Some (old !! k)) sd.

Definition load_state_dict (sd : state_dict) : M unit :=
  old ← state_dict_;
  dt ← get (λ σ, dtype_of (module σ));
  modify (with_module (set_params (loaded dt sd old)));;
  if decide (strict_ok sd old) then ret tt else raise RuntimeError.

Section Callback.

(** The random generator: the [i]th draw made during the run yields
    [rand i], reduced to an index of the population. *)
Variable rand : nat → nat.

(** The exponential of the tensor library. *)
Variable exp : Qc → Qc.

(** [random.sample(population, 1)[0]]. *)
Definition random_sample1 {A} (population : list A) : M A := λ σ,
  match population !! (rand (draws σ) `mod` length population)%nat with
  | Some a =>
      Returns a (World (self σ) (module σ) (trn σ) (S (draws σ)))
  | None => Raises ValueError σ
  end.

(** [__init__]: the callback object built from its arguments. *)
Definition init (num_tasks : Z) (alpha alpha_decay : Qc)
    (min_size max_size : Z) (sch_bar : Qc) (data_type : string)
    (print_log : bool) : result callback :=
  if decide (data_type = "size")
  then Ok (Callback num_tasks alpha alpha_decay sch_bar print_log
             (Task <$> py_range min_size (max_size + 1))
             None None None None)
  else Error NotImplementedError.

(** [self.alpha = max(self.alpha * self.alpha_decay, 0.0001)]. *)
Definition _alpha_scheduler : M unit :=
  a ← get (λ σ, alpha (self σ));
  d ← get (λ σ, alpha_decay (self σ));
  modify (with_self (set_alpha (py_max (a * d)%Qc (Q2Qc 0.0001)))).

(** The body of the loop of [_sample_task]. *)
Definition _sample_task_body (b : Z) : M unit :=
  ts ← get (λ σ, task_set (self σ));
  task_params ← random_sample1 ts;
  sel ← getattr selected_tasks;
  modify (with_self (set_selected_tasks (sel ++ [task_params]))).

(** [_sample_task]: [num_tasks] draws from the task set, appended one by
    one to a fresh [selected_tasks], then [w], the softmax of
    [num_tasks] ones. *)
Definition _sample_task : M unit :=
  n ← get (λ σ, num_tasks (self σ));
  let w0 := replicate (Z.to_nat n) 1%Qc in
  modify (with_self (set_selected_tasks []));;
  for_ (py_range 0 n) _sample_task_body;;
  modify (with_self (set_w (Tensor.softmax exp w0))).

(** [_load_task]: reads [selected_tasks[task_idx]] and [w[task_idx]],
    sets the generator's [num_loc] and, when the generator has a
    [capacity], sets it too. *)
Definition _load_task (task_idx : Z) : M unit :=
  sel ← getattr selected_tasks;
  task_params ← lift (py_getitem sel task_idx);
  ws ← getattr w;
  task_w ← lift (py_getitem ws task_idx);
  modify (with_module (set_num_loc (item0 task_params)));;
  g ← get (λ σ, env_generator (module σ));
  when (bool_decide (is_Some (capacity g)))
    (let task_capacity :=
       if decide (20 ≤ item0 task_params)
       then py_ceil (Qc_of_Z 30 + Qc_of_Z (item0 task_params) / Qc_of_Z 5)%Qc
       else 20 in
     modify (with_module (set_capacity task_capacity))).

(** [on_fit_start]: samples, then overwrites [selected_tasks[0]]. *)
Definition on_fit_start : M unit :=
  _sample_task;;
  sel ← getattr selected_tasks;
  g ← get (λ σ, env_generator (module σ));
  sel' ← lift (py_setitem sel 0 (Task (num_loc g)));
  modify (with_self (set_selected_tasks sel')).

(** [on_train_epoch_start]: decays [alpha]; saves the module's parameters
    as the meta model and clears [task_models] when [current_epoch %
    num_tasks == 0], loads the meta model into the module otherwise; and
    replaces the optimizer by a fresh [Adam] with the old learning rate
    times [lr_decay] (of the optimizer only the learning rate is kept). *)
Definition on_train_epoch_start : M unit :=
  _alpha_scheduler;;
  e ← get (λ σ, current_epoch (trn σ));
  n ← get (λ σ, num_tasks (self σ));
  r ← py_mod e n;
  (if decide (r = 0)
   then
     sd ← state_dict_;
     modify (with_self (set_meta_model_state_dict sd));;
     modify (with_self (set_task_models []));;
     pl ← get (λ σ, print_log (self σ));
     when pl (_ ← getattr selected_tasks; ret tt)
   else
     meta ← getattr meta_model_state_dict;
     load_state_dict meta);;
  sb ← get (λ σ, sch_bar (self σ));
  me ← get (λ σ, max_epochs (trn σ));
  let lr_decay : Qc :=
    if decide (e + 1 = py_int (sb * Qc_of_Z me)%Qc)
    then Q2Qc 0.1 else 1%Qc in
  old_lr ← get (λ σ, lr (trn σ));
  modify (with_trainer (set_lr (old_lr * lr_decay)%Qc)).

(** [on_train_epoch_end]: appends the module's parameters to
    [task_models]; when [(current_epoch + 1) % num_tasks == 0], builds the
    outer-loop state dict, loads it into the module and samples the next
    tasks; then loads the task of the next epoch. *)
Definition on_train_epoch_end : M unit :=
  tm ← getattr task_models;
  sd ← state_dict_;
  modify (with_self (set_task_models (tm ++ [sd])));;
  e ← get (λ σ, current_epoch (trn σ));
  n ← get (λ σ, num_tasks (self σ));
  r ← py_mod (e + 1) n;
  when (bool_decide (r = 0))
    (meta ← getattr meta_model_state_dict;
     a ← get (λ σ, alpha (self σ));
     tm' ← getattr task_models;
     new_sd ← lift (outer_state_dict a meta tm');
     load_state_dict new_sd);;
  r' ← py_mod (e + 1) n;
  when (bool_decide (r' = 0)) _sample_task;;
  r'' ← py_mod (e + 1) n;
  _load_task r''.

(** Modelled from the spec: the host training loop as the callback sees
    it (spec 4.3 and 5), which is not among the sources: [on_fit_start]
    once, then for every epoch, the index starting at [0], the calls
    [on_train_epoch_start], the training of the epoch and
    [on_train_epoch_end], one after the other. [training] stands for the
    training of one epoch. *)
Variable training : M unit.

Definition next_epoch (t : trainer) : trainer :=
  Trainer (current_epoch t + 1) (max_epochs t) (lr t).

Definition epoch : M unit :=
  on_train_epoch_start;;
  training;;
  on_train_epoch_end;;
  modify (with_trainer next_epoch).

Definition fit (epochs : nat) : M unit :=
  on_fit_start;;
  times epochs epoch.

End Callback.

(** ** Vocabulary of the properties *)

(** The entry [i] of the tensor stored under key [k]. *)
Definition entry (sd : state_dict) (k : string) (i : nat) : option Qc :=
  sd !! k ≫= (.!! i).





(** Two state dicts with the same keys and, key by key, the same shapes. *)
Definition same_shape (a b : state_dict) : Prop :=
  (length <$> a : gmap string nat) = length <$> b.

(** The learning rate that [on_train_epoch_start] gives the new optimizer. *)
Definition next_lr (σ : world) : Qc :=
  let lr_decay : Qc :=
    if decide (current_epoch (trn σ) + 1
               = py_int (sch_bar (self σ) * Qc_of_Z (max_epochs (trn σ)))%Qc)
    then Q2Qc 0.1 else 1%Qc in
  (lr (trn σ) * lr_decay)%Qc.

Definition next_alpha (σ : world) : Qc :=
  py_max (alpha (self σ) * alpha_decay (self σ))%Qc (Q2Qc 0.0001).

(** The callback holds the meta model and [c] snapshots, all with the
    keys and shapes of the module's parameters. *)
Definition holds_snapshots (σ : world) (meta : state_dict)
    (tm : list state_dict) (c : Z) : Prop :=
  meta_model_state_dict (self σ) = Some meta
  ∧ task_models (self σ) = Some tm
  ∧ Z.of_nat (length tm) = c
  ∧ same_shape meta (params (module σ))
  ∧ Forall (same_shape meta) tm.

(** The callback has a positive number of tasks, a task set that is not
    empty, and as many selected tasks and weights as [num_tasks]. *)
Definition well_formed (σ : world) : Prop :=
  1 ≤ num_tasks (self σ)
  ∧ 0 ≤ current_epoch (trn σ)
  ∧ task_set (self σ) ≠ []
  ∧ ∃ sel ws, selected_tasks (self σ) = Some sel ∧ w (self σ) = Some ws
      ∧ Z.of_nat (length sel) = num_tasks (self σ)
      ∧ length ws = length sel.

(** What holds between two epochs of a run: inside a meta-epoch the
    callback holds one snapshot per epoch of the meta-epoch so far. *)
Definition epoch_invariant (σ : world) : Prop :=
  well_formed σ
  ∧ (current_epoch (trn σ) `mod` num_tasks (self σ) ≠ 0 →
     ∃ meta tm, holds_snapshots σ meta tm
                  (current_epoch (trn σ) `mod` num_tasks (self σ))).

(** The state in which the outer-loop update runs: the snapshot of the
    epoch has been appended. *)
Definition appended (σ : world) (tm : list state_dict) : world :=
  with_self (set_task_models (tm ++ [params (module σ)])) σ.

(** The state an outcome ends in. *)
Definition final {A} (o : outcome A) : world :=
  match o with Returns _ σ => σ | Raises _ σ => σ end.

(** ** Concrete states *)

(** A rational stand-in for the exponential on concrete inputs: positive
    everywhere, which is all the callback relies on. *)
Definition exp_model (x : Qc) : Qc := (1 + x * x)%Qc.

(** A training epoch that moves every parameter by one. *)
Definition example_training : M unit :=
  modify (with_module (λ m,
    set_params ((λ t : tensor, (λ x, x + 1)%Qc <$> t) <$> params m) m)).

(** A concrete random generator. *)
Definition rand_model (i : nat) : nat := (7 * i + 3)%nat.

Definition example_params (a b c : Z) : state_dict :=
  <["layer.weight" := [Qc_of_Z a; Qc_of_Z b]]> (<["layer.bias" := [Qc_of_Z c]]> ∅).

(** The callback [ReptileCallback(4, 0.5, 0.9, 3, 5)] right after
    [__init__]. *)
Definition example_callback : callback :=
  Callback 4 (Q2Qc 0.5) (Q2Qc 0.9) (Q2Qc 0.9) true
    [Task 3; Task 4; Task 5] None None None None.

(** A fresh run: a module with a generator preconfigured to size [50]. *)
Definition example_start : world :=
  World example_callback
    (PlModule (example_params 1 2 10) (Generator 50 (Some 40)))
    (Trainer 0 8 (Q2Qc 0.001)) 0.

(** The callback at the end of epoch [3], holding the meta model and the
    snapshots of epochs [0..2]. *)
Definition example_end3 (meta s0 s1 s2 s3 : state_dict) : world :=
  World
    (Callback 4 (Q2Qc 0.5) (Q2Qc 0.9) (Q2Qc 0.9) true
       [Task 3; Task 4; Task 5]
       (Some [Task 50; Task 4; Task 3; Task 5])
       (Some [Q2Qc 0.25; Q2Qc 0.25; Q2Qc 0.25; Q2Qc 0.25])
       (Some meta) (Some [s0; s1; s2]))
    (PlModule s3 (Generator 5 (Some 20)))
    (Trainer 3 8 (Q2Qc 0.001)) 4.

(** A state dict of a module with a batch normalisation: a bias and the
    [int64] counter of the batches seen. *)
Definition example_tracked (c n : Z) : state_dict :=
  <["norm.bias" := [Qc_of_Z c]]>
    (<["norm.num_batches_tracked" := [Qc_of_Z n]]> ∅).

(** The callback at the end of epoch [3] over such a module. *)
Definition example_tracked_end3 (meta s0 s1 s2 s3 : state_dict) : world :=
  World
    (Callback 4 (Q2Qc 0.5) (Q2Qc 0.9) (Q2Qc 0.9) true
       [Task 3; Task 4; Task 5]
       (Some [Task 50; Task 4; Task 3; Task 5])
       (Some [Q2Qc 0.25; Q2Qc 0.25; Q2Qc 0.25; Q2Qc 0.25])
       (Some meta) (Some [s0; s1; s2]))
    (Module_ s3 (<["norm.num_batches_tracked" := int64]> ∅)
       (Generator 5 (Some 20)))
    (Trainer 3 8 (Q2Qc 0.001)) 4.

(** ** Vocabulary of the further properties *)

(** The capacity that [_load_task] derives from the size [s], in integer
    arithmetic. *)
Definition derived_capacity (s : Z) : Z :=
  if decide (20 ≤ s) then 30 + (s + 4) `div` 5 else 20.

(** What no method but [on_train_epoch_start] changes: the configuration
    of the callback, its saved models and the trainer. *)
Definition keeps_saved (σ σ' : world) : Prop :=
  num_tasks (self σ') = num_tasks (self σ)
  ∧ alpha (self σ') = alpha (self σ)
  ∧ alpha_decay (self σ') = alpha_decay (self σ)
  ∧ sch_bar (self σ') = sch_bar (self σ)
  ∧ print_log (self σ') = print_log (self σ)
  ∧ task_set (self σ') = task_set (self σ)
  ∧ meta_model_state_dict (self σ') = meta_model_state_dict (self σ)
  ∧ task_models (self σ') = task_models (self σ)
  ∧ trn σ' = trn σ.

(** The value of a result, [d] for an exception. *)
Definition ok_or {A} (d : A) (r : result A) : A :=
  match r with Ok a => a | Error _ => d end.

End Reptile.

(** * The JSSP environment *)

Module JSSP.

(** One batch entry of the [TensorDict] of the environment, with the
    fields [get_action_mask] and its callees read. [done_] is
    [td["done"]] (shape [(bs, 1)]); the lists are indexed by job, and
    [ops_ma_adj] by machine, then operation. *)
Record instance : Set := Instance {
  done_ : bool;
  job_in_process : list bool;
  job_done : list bool;
  next_op : list nat;
  ops_ma_adj : list (list bool);
  busy_until : list Qc
}.

(** A [TensorDict]: the list of its batch entries. *)
Abbreviation TensorDict := (list instance).

(** [t.any(1, keepdims=True)] and [reduce(t, "bs j m -> bs j", "all")] on
    one batch entry. *)
Definition any (row : list bool) : bool := existsb id row.
Definition all (row : list bool) : bool := forallb id row.

(** [~t] on the rows of a boolean tensor. *)
Definition invert (t : list (list bool)) : list (list bool) :=
  (λ row : list bool, negb <$> row) <$> t.

Section Env.

(** [FJSPEnv._get_job_machine_availability], inherited: for each batch
    entry, job and machine, whether the pair is masked. *)
Variable _get_job_machine_availability :
  TensorDict → list (list (list bool)).

Variable mask_no_ops : bool.

(** [get_action_mask]: per batch entry, the feasibility of the no-op
    followed by that of each job ([true] is feasible). The batch sizes
    of the two operands of [torch.cat] agree, both being that of
    [td]. *)
Definition get_action_mask (td : TensorDict) : list (list bool) :=
  let action_mask := _get_job_machine_availability td in
  let no_op_mask : list (list bool) :=
    if mask_no_ops
    then (λ i, [negb (done_ i)]) <$> td
    else (λ i, [negb (any (job_in_process i)) && negb (done_ i)]) <$> td in
  let action_mask : list (list bool) :=
    (λ jobs : list (list bool), all <$> jobs) <$> action_mask in
  zip_with app (invert no_op_mask) (invert action_mask).

End Env.

(** Modelled from the spec: [FJSPEnv._get_job_machine_availability], of
    the parent class that is not among the sources. Spec 4.1: a job is
    feasible iff it is not done, not in process, and at least one
    machine is eligible for its next operation; so the pair of job [j]
    and machine [m] is masked when [j] is done or in process or [m]
    cannot process the next operation of [j]. *)
Definition eligible (i : instance) (j m : nat) : bool :=
  default false (op ← next_op i !! j; row ← ops_ma_adj i !! m; row !! op).

Definition spec_availability (td : TensorDict) : list (list (list bool)) :=
  (λ i, (λ j, (λ m, default true (job_done i !! j)
                    || default true (job_in_process i !! j)
                    || negb (eligible i j m))
              <$> seq 0 (length (ops_ma_adj i)))
        <$> seq 0 (length (job_done i)))
  <$> td.

(** A job that is neither done nor in process and has an eligible
    machine for its next operation. *)
Definition idle_and_eligible (i : instance) (j : nat) : bool :=
  negb (default true (job_done i !! j))
  && negb (default true (job_in_process i !! j))
  && existsb (eligible i j) (seq 0 (length (ops_ma_adj i))).

(** Modelled from the spec: the termination test and the reward of
    [FJSPEnv], which [JSSPEnv] inherits. Spec 4.1: [is_done] is true iff
    every job has scheduled all of its operations; the reward is 0 while
    not done and, on completion, the negative makespan, the maximum over
    machines of busy-until. *)
Definition is_done (i : instance) : bool := all (job_done i).

Definition max_over (t : tensor) : Qc :=
  match t with
  | [] => 0%Qc
  | x :: t => foldl py_max x t
  end.

Definition makespan (i : instance) : Qc := max_over (busy_until i).

Definition reward (i : instance) : Qc :=
  if is_done i then (- makespan i)%Qc else 0%Qc.

(** Two jobs of one operation each on two machines; job [0] runs on
    machine [0] until time [3], job [1] waits for machine [1]. *)
Definition example_running : instance :=
  Instance false [true; false] [false; false] [0; 1]%nat
    [[true; false]; [false; true]] [Qc_of_Z 3; 0%Qc].

(** The same instance with both operations scheduled. *)
Definition example_finished : instance :=
  Instance true [false; false] [true; true] [1; 2]%nat
    [[true; false]; [false; true]] [Qc_of_Z 3; Qc_of_Z 5].

End JSSP.

(** * The PyVRP baseline: [rl4co/envs/routing/cvrp/baselines/pyvrp.py] *)

Module PyVRP.

(** What [solution2action] reads of a [pyvrp.Solution]: its routes, and
    of each route the locations it visits, in order. *)
Record Route : Set := mkRoute { visits : list Z }.
Record Solution : Set := mkSolution { routes : list Route }.

(** [[visit for route in solution.routes()
            for visit in route.visits() + [0]]]. *)
Definition solution2action (solution : Solution) : list Z :=
  route ← routes solution; visits route ++ [0].

(** PyVRP numbers the depot 0 and the clients from 1: no route visits 0. *)
Definition clients_only (solution : Solution) : Prop :=
  Forall (λ route, Forall (λ visit, visit ≠ 0) (visits route)) (routes solution).

Definition example_solution : Solution :=
  mkSolution [mkRoute [3; 1]; mkRoute []; mkRoute [2]].

End PyVRP.

(** * The L2D policy: [rl4co/models/zoo/jssp/policy.py] *)

Module L2D.

(** The value of a keyword argument of the decoder. *)
Inductive kwarg : Set :=
  | KNone
  | KStr (s : string)
  | KInt (n : Z).

Global Instance kwarg_eq_dec : EqDecision kwarg.
Proof. solve_decision. Defined.

(** The attributes that [__init__] assigns, the decoder apart. *)
Record L2DPolicy : Set := mkPolicy {
  env_name : string;
  train_decode_type : string;
  val_decode_type : string;
  test_decode_type : string
}.

(** The argument [env] of [forward]: [None], a name or an environment. *)
Inductive env_arg (Env : Type) : Type :=
  | EnvNone
  | EnvName (name : string)
  | EnvObj (env : Env).
Arguments EnvNone {Env}.
Arguments EnvName {Env} name.
Arguments EnvObj {Env} env.

(** [getattr(self, name)] for a name that ends in [_decode_type]: the
    policy has three such attributes. *)
Definition getattr (self : L2DPolicy) (name : string) : result string :=
  if decide (name = "train_decode_type") then Ok (train_decode_type self)
  else if decide (name = "val_decode_type") then Ok (val_decode_type self)
  else if decide (name = "test_decode_type") then Ok (test_decode_type self)
  else Error AttributeError.

Section Policy.

(** Environments and tensors, the registry of environments, the decoder
    of the policy, [get_log_likelihood] and the tensor expression of the
    entropy, [-(log_p.exp() * log_p).nansum(dim=1).sum(dim=1)], are those
    of the libraries. *)
Variables Env Tensor : Type.
Variable get_env : string → result Env.
Variable decoder :
  gmap string Tensor → Env → gmap string kwarg
  → result (Tensor * Tensor * gmap string Tensor).
Variable get_log_likelihood : Tensor → Tensor → option Tensor → result Tensor.
Variable entropy : Tensor → Tensor.

(** [td[k]] on a TensorDict. *)
Definition td_getitem (td : gmap string Tensor) (k : string) : result Tensor :=
  match td !! k with Some t => Ok t | None => Error KeyError end.

Definition forward (self : L2DPolicy) (td : gmap string Tensor)
    (env : env_arg Env) (phase : string)
    (return_actions return_entropy : bool)
    (decoder_kwargs : gmap string kwarg) : result (gmap string Tensor) :=
  env ← match env with
        | EnvNone => get_env (env_name self)
        | EnvName name => get_env name
        | EnvObj env => Ok env
        end;
  decoder_kwargs ←
    (if decide (default KNone (decoder_kwargs !! "decode_type") = KNone)
     then decode_type ← getattr self (phase +:+ "_decode_type");
          Ok (<["decode_type" := KStr decode_type]> decoder_kwargs)
     else Ok decoder_kwargs);
  '(log_p, actions, td_out) ← decoder td env decoder_kwargs;
  log_likelihood ← get_log_likelihood log_p actions (td_out !! "mask");
  reward ← td_getitem td_out "reward";
  let out : gmap string Tensor :=
    <["log_likelihood" := log_likelihood]> (<["reward" := reward]> ∅) in
  let out := if return_actions then <["actions" := actions]> out else out in
  let out := if return_entropy then <["entropy" := entropy log_p]> out
             else out in
  Ok out.

End Policy.

(** A policy, and a decoder that returns its decode type as the only
    action. *)
Definition example_policy : L2DPolicy :=
  mkPolicy "jssp" "sampling" "greedy" "greedy".

Definition example_get_env (name : string) : result string :=
  if decide (name = "jssp") then Ok name else Error KeyError.

Definition example_decoder (td : gmap string kwarg) (env : string)
    (kwargs : gmap string kwarg)
  : result (kwarg * kwarg * gmap string kwarg) :=
  Ok (KInt 0, default KNone (kwargs !! "decode_type"),
      <["reward" := KInt (-7)]> ∅).

Definition example_log_likelihood (log_p actions : kwarg)
    (mask : option kwarg) : result kwarg := Ok log_p.

End L2D.

(** * The GCN encoder: [rl4co/models/nn/graph/gcn.py] *)

Module GCN.

(** A 2-D tensor: the number of its columns and the list of its rows.
    [torch.mm] takes 2-D tensors only, so the node features of the
    encoder are those of one graph. *)
Record matrix : Type := Matrix { ncols : nat; rows : list (list Qc) }.

(** A tensor of shape [n, d]. *)
Definition shaped (n d : nat) (m : matrix) : Prop :=
  ncols m = d ∧ length (rows m) = n ∧ Forall (λ r, length r = d) (rows m).

Definition dot (xs ys : list Qc) : Qc := Tensor.qsum (zip_with Qcmult xs ys).

(** [torch.mm(a, b)]. *)
Definition mm (a b : matrix) : result matrix :=
  if decide (ncols a = length (rows b))
  then Ok (Matrix (ncols b)
             ((λ r, (λ j, dot r (Tensor.column (rows b) j)) <$> seq 0 (ncols b))
                <$> rows a))
  else Error RuntimeError.

(** [torch.spmm(a, b)]: the same product, for a sparse or dense [a]. *)
Definition spmm (a b : matrix) : result matrix := mm a b.

(** [m + bias] for a 1-D [bias], added to every row. (Broadcasting of
    singleton dimensions is not modelled: the bias of a layer has as many
    entries as its weight has columns.) *)
Definition add_bias (m : matrix) (bias : list Qc) : result matrix :=
  if decide (ncols m = length bias)
  then Ok (Matrix (ncols m) ((λ r, zip_with Qcplus r bias) <$> rows m))
  else Error RuntimeError.

(** [a + b] for 2-D tensors of one shape. *)
Definition madd (a b : matrix) : result matrix :=
  if decide (ncols a = ncols b ∧ length (rows a) = length (rows b))
  then Ok (Matrix (ncols a) (zip_with (zip_with Qcplus) (rows a) (rows b)))
  else Error RuntimeError.

(** [F.relu]. *)
Definition relu (m : matrix) : matrix :=
  Matrix (ncols m) ((λ r : list Qc, py_max 0%Qc <$> r) <$> rows m).

(** [adj.masked_fill(mask, 0)] for a mask of the shape of [adj]. *)
Definition masked_fill (adj : matrix) (mask : list (list bool))
  : result matrix :=
  if decide (length mask = length (rows adj)
             ∧ Forall (λ r, length r = ncols adj) mask)
  then Ok (Matrix (ncols adj)
             (zip_with (zip_with (λ x (b : bool), if b then 0%Qc else x))
                (rows adj) mask))
  else Error RuntimeError.

(** The tensor of shape [n, d] whose entries are all 0. *)
Definition zeros (n d : nat) : matrix :=
  Matrix d (replicate n (replicate d 0%Qc)).

(** [l[:-1]]. *)
Definition py_init {A} (l : list A) : list A := take (length l - 1) l.

Module GraphConvolution.

Record t : Type := mk { weight : matrix; bias : option (list Qc) }.

Definition forward (self : t) (input adj : matrix) : result matrix :=
  support ← mm input (weight self);
  output ← spmm adj support;
  match bias self with
  | Some bias => add_bias output bias
  | None => Ok output
  end.

(** A layer as [GraphConvolution(in_features, out_features)] builds it. *)
Definition built (in_features out_features : nat) (self : t) : Prop :=
  shaped in_features out_features (weight self)
  ∧ ∃ b, bias self = Some b ∧ length b = out_features.

End GraphConvolution.

Module GCNEncoder.

Record t : Type := mk {
  embedding_dim : nat;
  adj_key : string;
  dropout : Qc;
  residual : bool;
  gcn_layers : list GraphConvolution.t;
  training : bool
}.

Section Forward.

(** The initial embedding of the encoder, a module of its own, and the
    random [F.dropout] of the tensor library, by the number of the layer
    it follows. *)
Variable init_embedding : gmap string matrix → result matrix.
Variable F_dropout : nat → matrix → matrix.

(** The loop over [self.gcn_layers[:-1]], from layer number [i] on. *)
Fixpoint hidden_layers (self : t) (layers : list GraphConvolution.t)
    (i : nat) (update_node_feature adj : matrix) : result matrix :=
  match layers with
  | [] => Ok update_node_feature
  | layer :: layers =>
      update_node_feature ←
        GraphConvolution.forward layer update_node_feature adj;
      let update_node_feature := relu update_node_feature in
      let update_node_feature :=
        if training self then F_dropout i update_node_feature
        else update_node_feature in
      hidden_layers self layers (S i) update_node_feature adj
  end.

Definition forward (self : t) (td : gmap string matrix)
    (mask : option (list (list bool))) : result (matrix * matrix) :=
  init_h ← init_embedding td;
  let update_node_feature := init_h in
  adj ← match td !! adj_key self with
        | Some adj => Ok adj
        | None => Error KeyError
        end;
  adj ← match mask with
        | Some mask => masked_fill adj mask
        | None => Ok adj
        end;
  update_node_feature ←
    hidden_layers self (py_init (gcn_layers self)) 0 update_node_feature adj;
  last ← py_getitem (gcn_layers self) (-1);
  update_node_feature ← GraphConvolution.forward last update_node_feature adj;
  update_node_feature ←
    (if residual self then madd update_node_feature init_h
     else Ok update_node_feature);
  Ok (update_node_feature, init_h).

End Forward.

End GCNEncoder.

(** Two nodes with two features each, joined by an edge, and an encoder
    of two layers over them. *)
Definition example_h : matrix :=
  Matrix 2 [[Qc_of_Z 1; Qc_of_Z 2]; [Qc_of_Z 3; Qc_of_Z 4]].

Definition example_adj : matrix :=
  Matrix 2 [[0%Qc; Qc_of_Z 1]; [Qc_of_Z 1; 0%Qc]].

Definition example_layer (b : Z) : GraphConvolution.t :=
  GraphConvolution.mk
    (Matrix 2 [[Qc_of_Z 1; Qc_of_Z (-1)]; [Qc_of_Z 2; 0%Qc]])
    (Some [Qc_of_Z b; Qc_of_Z (b + 1)]).

Definition example_encoder (layers : list GraphConvolution.t)
  : GCNEncoder.t :=
  GCNEncoder.mk 2 "adjacency" (Q2Qc 0.5) true layers false.

Definition example_td : gmap string matrix :=
  <["adjacency" := example_adj]> (<["h" := example_h]> ∅).

Definition example_init_embedding (td : gmap string matrix) : result matrix :=
  match td !! "h" with Some h => Ok h | None => Error KeyError end.

Definition example_dropout (i : nat) (m : matrix) : matrix :=
  Matrix (ncols m) ((λ r : list Qc, Qcmult (Qc_of_Z 2) <$> r) <$> rows m).

End GCN.

(** * Properties of the Reptile callback *)

Import Reptile.

(** ** Traversals and dict comprehensions *)

(** ** Traversals and dict comprehensions *)
Lemma traverse_Ok {A B} (f : A → result B) l bs :
  traverse f l = Ok bs ↔ Forall2 (λ a b, f a = Ok b) l bs.
Proof.
  revert bs. induction l as [|a l IH]; intros bs; simpl.
  - split; [intros [= <-]; constructor | by inversion 1].
  - destruct (f a) as [b|e] eqn:Hfa; simpl.
    + destruct (traverse f l) as [bs'|e'] eqn:Hl; simpl.
      * split.
        -- intros [= <-]. constructor; [done | by apply IH].
        -- inversion 1 as [|? b' ? bs'' Hb Hbs]; subst.
           apply IH in Hbs. congruence.
      * split; [done|]. inversion 1 as [|? b' ? bs'' Hb Hbs]; subst.
        apply IH in Hbs. done.
    + split; [done|]. inversion 1; congruence.
Qed.

Lemma traverse_Error {A B} (f : A → result B) l e :
  traverse f l = Error e → ∃ a, a ∈ l ∧ f a = Error e.
Proof.
  induction l as [|a l IH]; simpl; [done|].
  destruct (f a) as [b|e'] eqn:Hfa; simpl.
  - destruct (traverse f l) as [bs'|e''] eqn:Hl; simpl; [done|].
    intros [= ->]. destruct IH as (a' & ? & ?); [done|].
    exists a'. split; [by right | done].
  - intros [= ->]. exists a. split; [by left | done].
Qed.

Lemma traverse_fails {A B} (f : A → result B) l a :
  a ∈ l → is_Error (f a) → is_Error (traverse f l).
Proof.
  intros Hin [e He]. destruct (traverse f l) as [bs|e'] eqn:Hl; [|by eexists].
  apply traverse_Ok in Hl.
  apply list_elem_of_lookup in Hin as [i Hi].
  destruct (Forall2_lookup_l _ _ _ _ _ Hl Hi) as (b & _ & Hb). congruence.
Qed.

Lemma dict_comp_Ok f (d d' : state_dict) :
  dict_comp f d = Ok d' ↔
  dom d' = dom d ∧ ∀ k v, d !! k = Some v → ∃ v', f k v = Ok v' ∧ d' !! k = Some v'.
Proof.
  unfold dict_comp.
  destruct (traverse _ (map_to_list d)) as [kvs|e] eqn:Ht; simpl.
  - apply traverse_Ok in Ht.
    assert (Hfst : kvs.*1 = (map_to_list d).*1).
    { clear -Ht. induction Ht as [|kv kv' l l' H _ IH]; [done|]. simpl.
      destruct (f kv.1 kv.2); simplify_eq/=. by rewrite IH. }
    assert (Hnd : NoDup kvs.*1).
    { rewrite Hfst. apply NoDup_fst_map_to_list. }
    assert (Hlk : ∀ k v, d !! k = Some v →
                  ∃ v', f k v = Ok v' ∧ (list_to_map kvs : state_dict) !! k = Some v').
    { intros k v Hk. apply elem_of_map_to_list in Hk.
      apply list_elem_of_lookup in Hk as [i Hi].
      destruct (Forall2_lookup_l _ _ _ _ _ Ht Hi) as (kv' & Hi' & Hf).
      simpl in Hf. destruct (f k v) as [v'|] eqn:Hfk; simplify_eq/=.
      exists v'. split; [done|].
      apply elem_of_list_to_map; [done|]. eapply list_elem_of_lookup_2; eauto. }
    assert (Hdom : dom (list_to_map kvs : state_dict) = dom d).
    { rewrite dom_list_to_map_L, Hfst. apply set_eq. intros k.
      rewrite elem_of_list_to_set, elem_of_dom, list_elem_of_fmap.
      split.
      - intros ([k' v] & -> & Hin). apply elem_of_map_to_list in Hin. eauto.
      - intros [v Hv]. exists (k, v). split; [done|]. by apply elem_of_map_to_list. }
    split.
    + intros [= <-]. done.
    + intros [Hd Hall]. f_equal. apply map_eq. intros k.
      destruct (d !! k) as [v|] eqn:Hk.
      * destruct (Hlk _ _ Hk) as (v1 & H1 & ->).
        destruct (Hall _ _ Hk) as (v2 & H2 & ->). congruence.
      * assert (k ∉ dom d) by by apply not_elem_of_dom.
        rewrite (proj1 (not_elem_of_dom _ _)) by by rewrite Hdom.
        symmetry. apply not_elem_of_dom. by rewrite Hd.
  - split; [done|]. intros [_ Hall].
    apply traverse_Error in Ht as ([k v] & Hin & Hf).
    apply elem_of_map_to_list in Hin. destruct (Hall _ _ Hin) as (v' & Hv & _).
    simpl in Hf. rewrite Hv in Hf. done.
Qed.

Lemma dict_comp_fails f (d : state_dict) k v :
  d !! k = Some v → is_Error (f k v) → is_Error (dict_comp f d).
Proof.
  intros Hk [e He]. destruct (dict_comp f d) as [d'|e'] eqn:Hd; [|by eexists].
  apply dict_comp_Ok in Hd as [_ Hd]. destruct (Hd _ _ Hk) as (? & ? & _).
  congruence.
Qed.

Lemma dict_comp_total f (d : state_dict) :
  (∀ k v, d !! k = Some v → is_Ok (f k v)) → is_Ok (dict_comp f d).
Proof.
  intros Hall. destruct (dict_comp f d) as [d'|e] eqn:Hd; [by eexists|].
  unfold dict_comp in Hd.
  destruct (traverse _ (map_to_list d)) as [kvs|e'] eqn:Ht; simpl in Hd; [done|].
  apply traverse_Error in Ht as ([k v] & Hin & Hf).
  apply elem_of_map_to_list in Hin. destruct (Hall _ _ Hin) as [v' Hv].
  simpl in Hf. by rewrite Hv in Hf.
Qed.

(** ** Python's built-ins *)

Lemma py_max_spec (a b : Qc) :
  (a ≤ py_max a b)%Qc ∧ (b ≤ py_max a b)%Qc ∧ (py_max a b = a ∨ py_max a b = b).
Proof.
  unfold py_max. case_decide as H.
  - split_and!; [by apply Qclt_le_weak | done | by right].
  - split_and!; [done | by apply Qcnot_lt_le | by left].
Qed.

Lemma py_getitem_0 {A} (x : A) (l : list A) : py_getitem (x :: l) 0 = Ok x.
Proof.
  unfold py_getitem. cbn [length].
  repeat case_decide; try lia; done.
Qed.

Lemma py_getitem_in_range {A} (l : list A) (i : Z) :
  0 ≤ i < Z.of_nat (length l) → is_Ok (py_getitem l i).
Proof.
  intros Hi. unfold py_getitem. cbv zeta.
  destruct (decide (i < 0)) as [|_]; [lia|]. rewrite decide_True by done.
  destruct (lookup_lt_is_Some_2 l (Z.to_nat i)) as [a ->]; [lia|]. by eexists.
Qed.

Lemma succ_mod (e n : Z) :
  0 < n →
  (e + 1) `mod` n = if decide (e `mod` n = n - 1) then 0 else e `mod` n + 1.
Proof.
  intros Hn. pose proof (Z.mod_pos_bound e n Hn) as Hb.
  pose proof (Z.div_mod e n) as Hd.
  case_decide as Hc.
  - symmetry. apply Z.mod_unique_pos with (q := e `div` n + 1); lia.
  - symmetry. apply Z.mod_unique_pos with (q := e `div` n); lia.
Qed.

Lemma capacity_formula_Q (s : Z) :
  (this (Qc_of_Z 30 + Qc_of_Z s / Qc_of_Z 5)%Qc == 30 + inject_Z s / 5)%Q.
Proof.
  unfold Qcdiv, Qcplus, Qcmult, Qcinv, Q2Qc, this.
  rewrite !Qred_correct. reflexivity.
Qed.

Lemma py_ceil_capacity (s : Z) :
  let c := py_ceil (Qc_of_Z 30 + Qc_of_Z s / Qc_of_Z 5)%Qc in
  (inject_Z c - 1 < 30 + inject_Z s / 5)%Q
  ∧ (30 + inject_Z s / 5 <= inject_Z c)%Q.
Proof.
  simpl. unfold py_ceil. rewrite (Qceiling_comp _ _ (capacity_formula_Q s)).
  split.
  - pose proof (Qceiling_lt (30 + inject_Z s / 5)) as H.
    unfold Z.sub in H. rewrite inject_Z_plus in H. exact H.
  - apply Qle_ceiling.
Qed.

Lemma exp_model_pos (x : Qc) : (0 < exp_model x)%Qc.
Proof.
  unfold exp_model, Qclt, Qcplus, Qcmult, Q2Qc, this.
  rewrite !Qred_correct. destruct x as [[n d] Hx]. simpl.
  unfold Qlt, Qplus, Qmult. simpl. nia.
Qed.

(** ** Tensors *)

Lemma mean0_lookup (rows : list tensor) t i :
  head rows = Some t → (i < length t)%nat →
  Tensor.mean0 rows !! i =
    Some (Tensor.qsum (Tensor.column rows i) / Qc_of_Z (Z.of_nat (length rows)))%Qc.
Proof.
  intros Hh Hi. destruct rows as [|t' rows]; simplify_eq/=.
  rewrite list_lookup_fmap, lookup_seq_lt by done. done.
Qed.

Lemma mean0_length (rows : list tensor) t :
  head rows = Some t → length (Tensor.mean0 rows) = length t.
Proof.
  intros Hh. destruct rows as [|t' rows]; simplify_eq/=.
  by rewrite length_fmap, length_seq.
Qed.

Lemma stack_Ok (ts rows : list tensor) :
  Tensor.stack ts = Ok rows →
  rows = ts ∧ ∃ t, head ts = Some t ∧ Forall (λ u, length u = length t) ts.
Proof.
  unfold Tensor.stack. destruct ts as [|t ts]; [done|].
  case_decide; [|done]. intros [= <-]. eauto.
Qed.

Lemma qsum_zeros (xs : list Qc) (c : Qc) :
  Forall (λ x, x = c) xs → Tensor.qsum ((λ x, x - c)%Qc <$> xs) = 0%Qc.
Proof.
  induction 1 as [|x xs -> _ IH]; [done|].
  rewrite fmap_cons. change (c - c + Tensor.qsum ((λ x, x - c) <$> xs) = 0)%Qc.
  rewrite IH. ring.
Qed.

Lemma qsum_replicate (n : nat) (x : Qc) :
  Tensor.qsum (replicate n x) = (Qc_of_Z (Z.of_nat n) * x)%Qc.
Proof.
  induction n as [|n IH].
  - change (0%Qc = (Qc_of_Z 0 * x)%Qc). rewrite Z2Qc_inj_0. ring.
  - change (x + Tensor.qsum (replicate n x) = Qc_of_Z (Z.of_nat (S n)) * x)%Qc.
    rewrite IH, Nat2Z.inj_succ, <-Z.add_1_r, Z2Qc_inj_add, Z2Qc_inj_1. ring.
Qed.

Lemma softmax_uniform (exp : Qc → Qc) (n : nat) :
  exp 1%Qc ≠ 0%Qc →
  Tensor.softmax exp (replicate n 1%Qc)
    = replicate n (1 / Qc_of_Z (Z.of_nat n))%Qc.
Proof.
  intros Hexp. unfold Tensor.softmax. rewrite fmap_replicate. cbv beta.
  rewrite fmap_replicate, qsum_replicate.
  destruct n as [|n]; [done|]. f_equal. field. split; [|done].
  rewrite <-Z2Qc_inj_0. intros ?%Z2Qc_inj. lia.
Qed.

(** ** The outer-loop expression *)

Lemma diffs_column (k : string) (m : tensor) (tms : list state_dict)
    (diffs : list tensor) i mi :
  m !! i = Some mi →
  Forall2 (λ fw r, ∃ x, fw !! k = Some x ∧ length x = length m
                        ∧ r = zip_with Qcminus x m) tms diffs →
  ∃ xs, Forall2 (λ fw x, entry fw k i = Some x) tms xs
        ∧ Tensor.column diffs i = ((λ x, x - mi)%Qc <$> xs).
Proof.
  intros Hmi. induction 1 as [|fw r tms diffs (x & Hx & Hlen & ->) _ (xs & IH1 & IH2)].
  - exists []. split; [constructor | done].
  - assert (is_Some (x !! i)) as [xi Hxi].
    { apply lookup_lt_is_Some. rewrite Hlen. by eapply lookup_lt_Some. }
    exists (xi :: xs). split.
    + constructor; [|done]. unfold entry. by rewrite Hx.
    + unfold Tensor.column in *. rewrite !fmap_cons, IH2. f_equal.
      rewrite lookup_zip_with, Hxi. simpl. by rewrite Hmi.
Qed.

Lemma outer_entry_Ok (a : Qc) (meta : state_dict) (tms : list state_dict)
    (k : string) (v : tensor) :
  outer_entry a meta tms k = Ok v →
  ∃ m, meta !! k = Some m ∧ tms ≠ [] ∧ length v = length m
    ∧ Forall (λ fw, ∃ x, fw !! k = Some x ∧ length x = length m) tms
    ∧ ∀ i mi, m !! i = Some mi →
        ∃ xs, Forall2 (λ fw x, entry fw k i = Some x) tms xs
          ∧ v !! i = Some (mi + a * (Tensor.qsum ((λ x, x - mi) <$> xs)
                                      / Qc_of_Z (Z.of_nat (length tms))))%Qc.
Proof.
  unfold outer_entry, dict_getitem.
  destruct (meta !! k) as [m|] eqn:Hm; simpl; [|done].
  destruct (traverse _ tms) as [diffs|] eqn:Ht; simpl; [|done].
  apply traverse_Ok in Ht. unfold task_delta, dict_getitem in Ht. rewrite Hm in Ht.
  assert (Hd : Forall2 (λ (fw : state_dict) r, ∃ x, fw !! k = Some x
                 ∧ length x = length m ∧ r = zip_with Qcminus x m) tms diffs).
  { eapply Forall2_impl; [exact Ht|]. intros fw r. simpl.
    destruct (fw !! k) as [x|]; simpl; [|done]. unfold Tensor.sub.
    case_decide; [|done]. intros [= <-]. eauto. }
  clear Ht. destruct (Tensor.stack diffs) as [rows|] eqn:Hs; simpl; [|done].
  apply stack_Ok in Hs as (-> & t & Hhead & _).
  assert (Hlt : length t = length m).
  { destruct Hd as [|fw ? ? ? (x & _ & Hl & ->)]; simplify_eq/=.
    rewrite length_zip_with. lia. }
  unfold Tensor.add, Tensor.scale. rewrite length_fmap, (mean0_length _ t) by done.
  case_decide; [|congruence]. intros [= <-].
  exists m. split_and!; [done| | | |].
  - intros ->. inversion Hd; by simplify_eq/=.
  - rewrite length_zip_with, length_fmap, (mean0_length _ t) by done. lia.
  - clear -Hd. induction Hd as [|fw r ? ? (x & ? & ? & _)]; constructor; eauto.
  - intros i mi Hmi. destruct (diffs_column _ _ _ _ _ _ Hmi Hd) as (xs & Hxs & Hcol).
    exists xs. split; [done|].
    rewrite lookup_zip_with, Hmi. simpl. rewrite list_lookup_fmap.
    rewrite (mean0_lookup _ t); [|done|].
    + simpl. rewrite Hcol. by rewrite (Forall2_length _ _ _ Hd).
    + rewrite Hlt. by eapply lookup_lt_Some.
Qed.

Lemma outer_entry_total (a : Qc) (meta : state_dict) (tms : list state_dict) k m :
  meta !! k = Some m → tms ≠ [] →
  Forall (λ fw : state_dict, ∃ x, fw !! k = Some x ∧ length x = length m) tms →
  is_Ok (outer_entry a meta tms k).
Proof.
  intros Hm Hne Hall. unfold outer_entry. unfold dict_getitem at 1. rewrite Hm. simpl.
  assert (∃ diffs, traverse (task_delta meta k) tms = Ok diffs
           ∧ Forall (λ r, length r = length m) diffs ∧ length diffs = length tms)
    as (diffs & -> & Hlen & Hn).
  { clear Hne. induction Hall as [|fw tms (x & Hx & Hl) _ (diffs & IH & ? & ?)].
    - exists []. by repeat constructor.
    - exists (zip_with Qcminus x m :: diffs). simpl. rewrite IH.
      unfold task_delta, dict_getitem. rewrite Hx, Hm. simpl.
      unfold Tensor.sub. rewrite decide_True by done. simpl.
      split_and!; [done| |lia]. constructor; [|done]. rewrite length_zip_with. lia. }
  simpl. destruct diffs as [|t diffs]; [by destruct tms|].
  unfold Tensor.stack. rewrite decide_True; simpl.
  - unfold Tensor.add, Tensor.scale. rewrite decide_True; [by eexists|].
    rewrite length_fmap, length_fmap, length_seq. by inversion Hlen.
  - inversion Hlen; subst. eapply Forall_impl; [exact Hlen|]. simpl. congruence.
Qed.

Lemma outer_entry_missing (a : Qc) (meta : state_dict) (tms : list state_dict) k
    (fw : state_dict) :
  fw ∈ tms → fw !! k = None → is_Error (outer_entry a meta tms k).
Proof.
  intros Hin Hk. unfold outer_entry.
  destruct (dict_getitem meta k) as [m|]; simpl; [|by eexists].
  destruct (traverse_fails (task_delta meta k) tms fw Hin) as [e ->]; [|by eexists].
  unfold task_delta, dict_getitem. rewrite Hk. by eexists.
Qed.

Lemma outer_state_dict_missing (a : Qc) (meta : state_dict) (tms : list state_dict)
    k (fw : state_dict) :
  is_Some (meta !! k) → fw ∈ tms → fw !! k = None →
  is_Error (outer_state_dict a meta tms).
Proof.
  intros [m Hm] Hin Hk. unfold outer_state_dict.
  eapply dict_comp_fails; [exact Hm|]. simpl. by eapply outer_entry_missing.
Qed.

Lemma outer_state_dict_Ok (a : Qc) (meta : state_dict) (snaps : list state_dict)
    (new_sd : state_dict) :
  outer_state_dict a meta snaps = Ok new_sd →
  dom new_sd = dom meta
  ∧ ∀ k m, meta !! k = Some m →
      ∃ v, new_sd !! k = Some v ∧ length v = length m
        ∧ ∀ i mi, m !! i = Some mi →
            ∃ xs, Forall2 (λ fw x, entry fw k i = Some x) snaps xs
              ∧ v !! i = Some (mi + a * (Tensor.qsum ((λ x, x - mi) <$> xs)
                                          / Qc_of_Z (Z.of_nat (length snaps))))%Qc.
Proof.
  intros [Hdom Hall]%dict_comp_Ok. split; [done|].
  intros k m Hm. destruct (Hall k m Hm) as (v & Hv & Hk). simpl in Hv.
  apply outer_entry_Ok in Hv as (m' & Hm' & _ & Hlen & _ & Hent).
  simplify_eq. eauto.
Qed.

Lemma outer_state_dict_unchanged (a : Qc) (meta : state_dict)
    (snaps : list state_dict) :
  snaps ≠ [] → Forall (λ fw, fw = meta) snaps →
  outer_state_dict a meta snaps = Ok meta.
Proof.
  intros Hne Hall. apply dict_comp_Ok. split; [done|].
  intros k m Hm. simpl.
  destruct (outer_entry_total a meta snaps k m Hm Hne) as [v Hv].
  { eapply Forall_impl; [exact Hall|]. intros fw ->. eauto. }
  exists v. split; [done|]. rewrite Hm. f_equal.
  apply outer_entry_Ok in Hv as (m' & Hm' & _ & Hlen & _ & Hent).
  assert (m' = m) as -> by congruence. apply list_eq. intros i.
  destruct (m !! i) as [mi|] eqn:Hi.
  - destruct (Hent i mi Hi) as (xs & Hxs & ->). f_equal.
    rewrite qsum_zeros; [unfold Qcdiv; ring|].
    clear -Hxs Hall Hm Hi. induction Hxs as [|fw x ? ? Hx _ IH]; [done|].
    inversion Hall; subst. constructor; [|by apply IH].
    unfold entry in Hx. rewrite Hm in Hx. simpl in Hx. congruence.
  - symmetry. apply lookup_ge_None. rewrite Hlen. by apply lookup_ge_None.
Qed.

Lemma same_shape_lookup (a b : state_dict) :
  same_shape a b ↔ ∀ k, length <$> a !! k = length <$> b !! k.
Proof.
  unfold same_shape. split.
  - intros H k. by rewrite <-!lookup_fmap, H.
  - intros H. apply map_eq. intros k. by rewrite !lookup_fmap.
Qed.

Lemma same_shape_trans (a b c : state_dict) :
  same_shape a b → same_shape b c → same_shape a c.
Proof. unfold same_shape. congruence. Qed.

Lemma same_shape_strict_ok (sd old : state_dict) :
  same_shape sd old → strict_ok sd old.
Proof.
  intros H. rewrite same_shape_lookup in H. split.
  - intros k v Hk. by rewrite H, Hk.
  - intros k v Hk. specialize (H k). rewrite Hk in H.
    destruct (old !! k); [done | by simplify_eq/=].
Qed.

Lemma outer_state_dict_total (a : Qc) (meta : state_dict)
    (snaps : list state_dict) :
  snaps ≠ [] → Forall (same_shape meta) snaps →
  ∃ new_sd, outer_state_dict a meta snaps = Ok new_sd ∧ same_shape new_sd meta.
Proof.
  intros Hne Hall.
  destruct (dict_comp_total (λ k _, outer_entry a meta snaps k) meta) as [new_sd Hsd].
  { intros k m Hm. apply outer_entry_total with (m := m); [done..|].
    eapply Forall_impl; [exact Hall|]. intros fw Hfw.
    rewrite same_shape_lookup in Hfw. specialize (Hfw k). rewrite Hm in Hfw. destruct (fw !! k) as [x|]; simplify_eq/=. eauto. }
  exists new_sd. split; [done|].
  apply outer_state_dict_Ok in Hsd as [Hdom Hent].
  apply same_shape_lookup. intros k.
  destruct (meta !! k) as [m|] eqn:Hm.
  - destruct (Hent k m Hm) as (v & -> & Hlen & _). simpl. by rewrite Hlen.
  - apply not_elem_of_dom in Hm. rewrite <-Hdom in Hm.
    apply not_elem_of_dom in Hm. by rewrite Hm.
Qed.

(** ** Running the monad *)

Lemma bind_Returns {A B} (m : M A) (f : A → M B) σ b σ' :
  (m ≫= f) σ = Returns b σ' ↔ ∃ a σ1, m σ = Returns a σ1 ∧ f a σ1 = Returns b σ'.
Proof.
  unfold mbind, M_bind, bind. destruct (m σ) as [a σ1|e σ1]; split.
  - eauto.
  - by intros (? & ? & [= <- <-] & ?).
  - done.
  - by intros (? & ? & [=] & ?).
Qed.

Lemma bind_Raises {A B} (m : M A) (f : A → M B) σ e σ' :
  (m ≫= f) σ = Raises e σ' ↔
  m σ = Raises e σ' ∨ ∃ a σ1, m σ = Returns a σ1 ∧ f a σ1 = Raises e σ'.
Proof.
  unfold mbind, M_bind, bind. destruct (m σ) as [a σ1|e1 σ1]; split.
  - intros ?. right. eauto.
  - intros [?|(? & ? & [= <- <-] & ?)]; done.
  - intros [= -> ->]. by left.
  - intros [[= -> ->]|(? & ? & [=] & ?)]; done.
Qed.

Ltac mrun :=
  unfold mbind, M_bind, bind, get, modify, getattr, ret, raise, lift, when,
    py_mod, state_dict_; simpl.

(** ** The model boundary *)

Lemma py_int_of_Z (z : Z) : py_int (Qc_of_Z z) = z.
Proof.
  unfold py_int. case_decide.
  - apply Qfloor_Z.
  - apply Qceiling_Z.
Qed.

Lemma to_dtype_length (d : dtype) (t : tensor) :
  length (to_dtype d t) = length t.
Proof. destruct d; simpl; [done | by rewrite length_fmap]. Qed.

Lemma to_dtype_idemp (d : dtype) (t : tensor) :
  to_dtype d (to_dtype d t) = to_dtype d t.
Proof.
  destruct d; simpl; [done|]. rewrite <-list_fmap_compose.
  apply list_fmap_ext. intros i x _. simpl. by rewrite py_int_of_Z.
Qed.


Lemma to_dtypes_lookup (m : pl_module) (sd : state_dict) (k : string) :
  to_dtypes m sd !! k = to_dtype (dtype_of m k) <$> sd !! k.
Proof. unfold to_dtypes. rewrite map_lookup_imap. by destruct (sd !! k). Qed.

Lemma to_dtypes_idemp (m : pl_module) (sd : state_dict) :
  to_dtypes m (to_dtypes m sd) = to_dtypes m sd.
Proof.
  apply map_eq. intros k. rewrite !to_dtypes_lookup.
  destruct (sd !! k); simpl; [|done]. by rewrite to_dtype_idemp.
Qed.


Lemma to_dtypes_same_shape (m : pl_module) (sd : state_dict) :
  same_shape (to_dtypes m sd) sd.
Proof.
  apply same_shape_lookup. intros k. rewrite to_dtypes_lookup.
  destruct (sd !! k); simpl; [|done]. by rewrite to_dtype_length.
Qed.

Lemma to_dtypes_float (m : pl_module) (sd : state_dict) :
  dtypes m = ∅ → to_dtypes m sd = sd.
Proof.
  intros Hm. apply map_eq. intros k. rewrite to_dtypes_lookup.
  unfold dtype_of. rewrite Hm, lookup_empty. by destruct (sd !! k).
Qed.

Lemma params_set_params (d : state_dict) (m : pl_module) :
  params (set_params d m) = to_dtypes m d.
Proof. reflexivity. Qed.

Lemma params_to_dtypes (m : pl_module) : to_dtypes m (params m) = params m.
Proof. apply to_dtypes_idemp. Qed.

Lemma loaded_strict_ok (m : pl_module) (sd old : state_dict) :
  strict_ok sd old → loaded (dtype_of m) sd old = to_dtypes m sd.
Proof.
  intros [H1 H2]. apply map_eq. intros k. unfold loaded.
  rewrite map_lookup_imap, to_dtypes_lookup.
  destruct (old !! k) as [v|] eqn:Hk; simpl.
  - specialize (H1 k v Hk). simpl in H1.
    destruct (sd !! k) as [v'|]; simplify_eq/=. by rewrite decide_True.
  - destruct (sd !! k) as [v'|] eqn:Hs; [|done].
    destruct (H2 k v' Hs) as [? ?]. congruence.
Qed.

Lemma load_state_dict_run (sd : state_dict) (σ : world) :
  strict_ok sd (params (module σ)) →
  load_state_dict sd σ
  = Returns tt (with_module (set_params (to_dtypes (module σ) sd)) σ).
Proof.
  intros Hok. unfold load_state_dict, state_dict_.
  unfold mbind, M_bind, bind, get, modify. simpl.
  rewrite decide_True by done. by rewrite loaded_strict_ok.
Qed.

Lemma load_state_dict_Returns (sd : state_dict) (σ σ' : world) :
  load_state_dict sd σ = Returns tt σ' →
  strict_ok sd (params (module σ))
  ∧ σ' = with_module (set_params (to_dtypes (module σ) sd)) σ.
Proof.
  unfold load_state_dict, state_dict_.
  unfold mbind, M_bind, bind, get, modify. simpl.
  case_decide as Hok; [|done]. intros [= <-]. by rewrite loaded_strict_ok.
Qed.

(** The parameters that [load_state_dict sd] leaves in the module. *)
Lemma params_loaded (sd : state_dict) (σ : world) :
  params (module (with_module (set_params (to_dtypes (module σ) sd)) σ))
  = to_dtypes (module σ) sd.
Proof. simpl. rewrite params_set_params. apply to_dtypes_idemp. Qed.

(** ** The methods, run on a state *)

Section Methods.
Variable rand : nat → nat.
Variable exp : Qc → Qc.

Lemma _alpha_scheduler_run (σ : world) :
  _alpha_scheduler σ =
    Returns tt (with_self (set_alpha
      (py_max (alpha (self σ) * alpha_decay (self σ)) (Q2Qc 0.0001))) σ).
Proof. reflexivity. Qed.

Lemma times_alpha_scheduler (n : nat) (σ : world) :
  (Q2Qc 0.0001 ≤ alpha (self σ))%Qc →
  ∃ σ', times n _alpha_scheduler σ = Returns tt σ'
        ∧ (Q2Qc 0.0001 ≤ alpha (self σ'))%Qc.
Proof.
  revert σ. induction n as [|n IH]; intros σ Hσ.
  - by exists σ.
  - simpl. unfold mbind, M_bind, bind. rewrite _alpha_scheduler_run.
    apply IH. simpl. apply py_max_spec.
Qed.

Lemma _load_task_run (task_idx : Z) (σ : world) sel ws (t : task) (x : Qc) :
  selected_tasks (self σ) = Some sel → w (self σ) = Some ws →
  py_getitem sel task_idx = Ok t → py_getitem ws task_idx = Ok x →
  _load_task task_idx σ =
    Returns tt (with_module (λ m, Module_ (data m) (dtypes m)
      (Generator (item0 t)
         (match capacity (env_generator m) with
          | Some _ => Some (if decide (20 ≤ item0 t)
                            then py_ceil (Qc_of_Z 30 + Qc_of_Z (item0 t) / Qc_of_Z 5)%Qc
                            else 20)
          | None => None
          end))) σ).
Proof.
  intros Hsel Hw Ht Hx. unfold _load_task.
  unfold mbind, M_bind, bind, getattr. rewrite Hsel, Ht. simpl. rewrite Hw, Hx. simpl.
  destruct σ as [c [p dt [nl [cap|]]] tr d]; reflexivity.
Qed.

Lemma load_task_Returns (task_idx : Z) (σ σ' : world) :
  _load_task task_idx σ = Returns tt σ' →
  params (module σ') = params (module σ) ∧ self σ' = self σ ∧ trn σ' = trn σ.
Proof.
  unfold _load_task. mrun.
  destruct (selected_tasks (self σ)) as [sel|]; simpl; [|done].
  destruct (py_getitem sel task_idx); simpl; [|done].
  destruct (w (self σ)) as [ws|]; simpl; [|done].
  destruct (py_getitem ws task_idx); simpl; [|done].
  destruct (capacity (env_generator (module σ))); simpl; by intros [= <-].
Qed.

Lemma load_task_dtypes (task_idx : Z) (σ σ' : world) :
  _load_task task_idx σ = Returns tt σ' →
  dtypes (module σ') = dtypes (module σ).
Proof.
  unfold _load_task. mrun.
  destruct (selected_tasks (self σ)) as [sel|]; simpl; [|done].
  destruct (py_getitem sel task_idx); simpl; [|done].
  destruct (w (self σ)) as [ws|]; simpl; [|done].
  destruct (py_getitem ws task_idx); simpl; [|done].
  destruct (capacity (env_generator (module σ))); simpl; by intros [= <-].
Qed.

Lemma random_sample1_run {A} (population : list A) (σ : world) :
  population ≠ [] →
  ∃ a, a ∈ population
     ∧ random_sample1 rand population σ =
         Returns a (World (self σ) (module σ) (trn σ) (S (draws σ))).
Proof.
  intros Hne. unfold random_sample1.
  destruct (lookup_lt_is_Some_2 population
              (rand (draws σ) `mod` length population)%nat) as [a Ha].
  { apply Nat.mod_upper_bound. by destruct population. }
  exists a. rewrite Ha. split; [by eapply list_elem_of_lookup_2 | done].
Qed.

Lemma sample_loop_run (l : list Z) (σ : world) (sel : list task) :
  selected_tasks (self σ) = Some sel → task_set (self σ) ≠ [] →
  ∃ picks, length picks = length l
    ∧ Forall (λ t, t ∈ task_set (self σ)) picks
    ∧ for_ l (_sample_task_body rand) σ =
        Returns tt (World (set_selected_tasks (sel ++ picks) (self σ))
                      (module σ) (trn σ) (draws σ + length l)).
Proof.
  revert σ sel. induction l as [|b l IH]; intros σ sel Hsel Hne.
  - exists []. split_and!; [done | constructor |]. simpl.
    rewrite app_nil_r, Nat.add_0_r. destruct σ as [[] ? ? ?].
    simpl in *. by subst.
  - destruct (random_sample1_run (task_set (self σ)) σ Hne) as (t & Hin & Hr).
    set (σ1 := World (set_selected_tasks (sel ++ [t]) (self σ))
                 (module σ) (trn σ) (S (draws σ))).
    destruct (IH σ1 (sel ++ [t])) as (picks & Hlen & Hall & Hrun); [done..|].
    exists (t :: picks). split_and!; [simpl; lia | by constructor |].
    simpl. unfold mbind, M_bind, bind, _sample_task_body at 1.
    unfold mbind, M_bind, bind, get, getattr, modify. rewrite Hr. simpl.
    rewrite Hsel. unfold with_self. simpl.
    fold σ1. rewrite Hrun. subst σ1. unfold set_selected_tasks. simpl.
    by rewrite <-(assoc_L (++)), Nat.add_succ_r.
Qed.

Lemma _sample_task_run (σ : world) :
  task_set (self σ) ≠ [] →
  ∃ picks, length picks = Z.to_nat (num_tasks (self σ))
    ∧ Forall (λ t, t ∈ task_set (self σ)) picks
    ∧ _sample_task rand exp σ =
        Returns tt
          (World (set_w (Tensor.softmax exp
                           (replicate (Z.to_nat (num_tasks (self σ))) 1%Qc))
                    (set_selected_tasks picks (self σ)))
             (module σ) (trn σ) (draws σ + Z.to_nat (num_tasks (self σ)))).
Proof.
  intros Hne.
  destruct (sample_loop_run (py_range 0 (num_tasks (self σ)))
              (with_self (set_selected_tasks []) σ) []) as (picks & Hlen & Hall & Hrun);
    [done..|].
  exists picks. unfold py_range in Hlen. rewrite length_seqZ, Z.sub_0_r in Hlen.
  split_and!; [done..|].
  unfold _sample_task. unfold mbind, M_bind, bind, get, modify. simpl.
  rewrite Hrun. unfold py_range. by rewrite length_seqZ, Z.sub_0_r.
Qed.

Lemma sample_body_Returns (b : Z) (σ σ' : world) :
  _sample_task_body rand b σ = Returns tt σ' →
  module σ' = module σ ∧ trn σ' = trn σ.
Proof.
  unfold _sample_task_body, random_sample1. mrun.
  destruct (task_set (self σ) !! _) as [t|]; simpl; [|done].
  destruct (selected_tasks (self σ)); simpl; [|done]. by intros [= <-].
Qed.

Lemma sample_loop_Returns (l : list Z) (σ σ' : world) :
  for_ l (_sample_task_body rand) σ = Returns tt σ' →
  module σ' = module σ ∧ trn σ' = trn σ.
Proof.
  revert σ. induction l as [|b l IH]; intros σ; simpl.
  - by intros [= <-].
  - intros ([] & σ1 & H1 & H2)%bind_Returns.
    apply sample_body_Returns in H1 as [<- <-]. by apply IH.
Qed.

Lemma sample_task_Returns (σ σ' : world) :
  _sample_task rand exp σ = Returns tt σ' →
  module σ' = module σ ∧ trn σ' = trn σ.
Proof.
  unfold _sample_task. mrun.
  destruct (for_ _ _ _) as [[] σ1|] eqn:Hl; [|done].
  apply sample_loop_Returns in Hl as [Hm Ht]. simpl in *.
  intros [= <-]. by simpl.
Qed.

Lemma on_fit_start_run (σ : world) :
  1 ≤ num_tasks (self σ) → task_set (self σ) ≠ [] →
  ∃ rest, Z.of_nat (length rest) = num_tasks (self σ) - 1
    ∧ Forall (λ t, t ∈ task_set (self σ)) rest
    ∧ on_fit_start rand exp σ =
        Returns tt
          (World (set_selected_tasks
                    (Task (num_loc (env_generator (module σ))) :: rest)
                    (set_w (Tensor.softmax exp
                              (replicate (Z.to_nat (num_tasks (self σ))) 1%Qc))
                       (self σ)))
             (module σ) (trn σ) (draws σ + Z.to_nat (num_tasks (self σ)))).
Proof.
  intros Hn Hne.
  destruct (_sample_task_run σ Hne) as (picks & Hlen & Hall & Hrun).
  destruct picks as [|t0 rest]; [simpl in Hlen; lia|].
  exists rest. split_and!.
  - simpl in Hlen. lia.
  - by inversion Hall.
  - unfold on_fit_start. mrun. rewrite Hrun. simpl. done.
Qed.

Lemma on_train_epoch_start_snapshot (σ : world) :
  num_tasks (self σ) ≠ 0 →
  current_epoch (trn σ) `mod` num_tasks (self σ) = 0 →
  (print_log (self σ) = true → is_Some (selected_tasks (self σ))) →
  on_train_epoch_start σ =
    Returns tt
      (World (set_task_models []
                (set_meta_model_state_dict (params (module σ))
                   (set_alpha (next_alpha σ) (self σ))))
         (module σ) (set_lr (next_lr σ) (trn σ)) (draws σ)).
Proof.
  intros Hn He Hp. unfold on_train_epoch_start, _alpha_scheduler. mrun.
  rewrite decide_False by done. simpl. rewrite decide_True by done. simpl.
  destruct (print_log (self σ)) eqn:Hpl; simpl; [|done].
  destruct Hp as [sel Hsel]; [done|]. by rewrite Hsel.
Qed.

Lemma on_train_epoch_start_reset (σ : world) (meta : state_dict) :
  num_tasks (self σ) ≠ 0 →
  current_epoch (trn σ) `mod` num_tasks (self σ) ≠ 0 →
  meta_model_state_dict (self σ) = Some meta →
  strict_ok meta (params (module σ)) →
  on_train_epoch_start σ =
    Returns tt
      (World (set_alpha (next_alpha σ) (self σ))
         (set_params (to_dtypes (module σ) meta) (module σ))
         (set_lr (next_lr σ) (trn σ)) (draws σ)).
Proof.
  intros Hn He Hm Hok. unfold on_train_epoch_start, _alpha_scheduler. mrun.
  rewrite decide_False by done. simpl. rewrite decide_False by done. simpl.
  rewrite Hm. simpl. rewrite load_state_dict_run by done. done.
Qed.

Lemma on_train_epoch_start_generator (σ σ' : world) :
  on_train_epoch_start σ = Returns tt σ' →
  env_generator (module σ') = env_generator (module σ).
Proof.
  unfold on_train_epoch_start, _alpha_scheduler. mrun.
  case_decide; simpl; [done|]. case_decide; simpl.
  - destruct (print_log (self σ)); simpl.
    + destruct (selected_tasks (self σ)); simpl; [|done]. by intros [= <-].
    + by intros [= <-].
  - destruct (meta_model_state_dict (self σ)) as [meta|]; simpl; [|done].
    destruct (load_state_dict meta _) as [[] σ1|] eqn:Hl; [|done].
    apply load_state_dict_Returns in Hl as [_ ->]. by intros [= <-].
Qed.

Lemma on_train_epoch_end_outer_Returns (σ σ' : world) :
  (current_epoch (trn σ) + 1) `mod` num_tasks (self σ) = 0 →
  on_train_epoch_end rand exp σ = Returns tt σ' →
  ∃ meta tm new_sd,
    meta_model_state_dict (self σ) = Some meta
    ∧ task_models (self σ) = Some tm
    ∧ outer_state_dict (alpha (self σ)) meta (tm ++ [params (module σ)])
        = Ok new_sd
    ∧ strict_ok new_sd (params (module σ))
    ∧ params (module σ') = to_dtypes (module σ) new_sd
    ∧ dtypes (module σ') = dtypes (module σ).
Proof.
  intros He. unfold on_train_epoch_end. mrun.
  destruct (task_models (self σ)) as [tm|]; simpl; [|done].
  case_decide as Hn; simpl; [done|]. rewrite He. simpl.
  destruct (meta_model_state_dict (self σ)) as [meta|]; simpl; [|done].
  destruct (outer_state_dict _ _ _) as [new_sd|] eqn:Hsd; simpl; [|done].
  destruct (load_state_dict new_sd _) as [[] σ1|] eqn:Hl; [|done].
  apply load_state_dict_Returns in Hl as [Hok ->].
  destruct (_sample_task _ _ _) as [[] σ2|] eqn:Hs; [|done].
  apply sample_task_Returns in Hs as [Hm2 _]. simpl in Hm2.
  intros Hl. pose proof (load_task_dtypes _ _ _ Hl) as Hd.
  apply load_task_Returns in Hl as (Hp & _).
  exists meta, tm, new_sd. split_and!; [done..| |].
  - rewrite Hp, Hm2. apply (params_loaded new_sd (appended σ tm)).
  - by rewrite Hd, Hm2.
Qed.

Lemma on_train_epoch_end_inner_Returns (σ σ' : world) :
  (current_epoch (trn σ) + 1) `mod` num_tasks (self σ) ≠ 0 →
  on_train_epoch_end rand exp σ = Returns tt σ' →
  ∃ tm, task_models (self σ) = Some tm
    ∧ self σ' = set_task_models (tm ++ [params (module σ)]) (self σ)
    ∧ params (module σ') = params (module σ)
    ∧ trn σ' = trn σ.
Proof.
  intros He. unfold on_train_epoch_end. mrun.
  destruct (task_models (self σ)) as [tm|]; simpl; [|done].
  case_decide as Hn; simpl; [done|]. rewrite bool_decide_false by done. simpl.
  intros (Hp & Hs & Ht)%load_task_Returns. exists tm. by split_and!.
Qed.

Lemma on_train_epoch_end_outer_Raises (σ : world) meta tm (e : exn) :
  num_tasks (self σ) ≠ 0 →
  (current_epoch (trn σ) + 1) `mod` num_tasks (self σ) = 0 →
  meta_model_state_dict (self σ) = Some meta →
  task_models (self σ) = Some tm →
  outer_state_dict (alpha (self σ)) meta (tm ++ [params (module σ)]) = Error e →
  on_train_epoch_end rand exp σ = Raises e (appended σ tm).
Proof.
  intros Hn He Hm Htm Hsd. unfold on_train_epoch_end. mrun.
  rewrite Htm. simpl. rewrite decide_False by done. simpl. rewrite He. simpl.
  rewrite Hm. simpl. rewrite Hsd. done.
Qed.

Lemma on_train_epoch_end_outer_run (σ : world) meta tm new_sd :
  1 ≤ num_tasks (self σ) →
  (current_epoch (trn σ) + 1) `mod` num_tasks (self σ) = 0 →
  meta_model_state_dict (self σ) = Some meta →
  task_models (self σ) = Some tm →
  outer_state_dict (alpha (self σ)) meta (tm ++ [params (module σ)]) = Ok new_sd →
  strict_ok new_sd (params (module σ)) →
  task_set (self σ) ≠ [] →
  ∃ σ', on_train_epoch_end rand exp σ = Returns tt σ'
        ∧ params (module σ') = to_dtypes (module σ) new_sd.
Proof.
  intros Hn He Hm Htm Hsd Hok Hts.
  set (σ1 := with_module (set_params (to_dtypes (module σ) new_sd))
               (appended σ tm)).
  destruct (_sample_task_run σ1) as (picks & Hlen & _ & Hrun); [done|].
  destruct picks as [|t0 rest]; [simpl in Hlen; lia|].
  destruct (Tensor.softmax exp (replicate (Z.to_nat (num_tasks (self σ1))) 1%Qc))
    as [|x ws] eqn:Hw.
  { apply (f_equal length) in Hw. unfold Tensor.softmax in Hw.
    rewrite length_fmap, length_replicate in Hw. simpl in *. lia. }
  eexists. split.
  - unfold on_train_epoch_end. mrun. rewrite Htm. simpl.
    rewrite decide_False by lia. simpl. rewrite He. simpl. rewrite Hm. simpl.
    rewrite Hsd. simpl. rewrite load_state_dict_run by done.
    match goal with
    | |- context [_sample_task rand exp ?x] => change x with σ1
    end.
    rewrite Hrun.
    erewrite _load_task_run; [reflexivity|simpl; reflexivity|simpl; reflexivity
                              |apply py_getitem_0|apply py_getitem_0].
  - apply (params_loaded new_sd σ).
Qed.

Lemma on_train_epoch_end_inner_run (σ : world) tm sel ws :
  num_tasks (self σ) ≠ 0 →
  (current_epoch (trn σ) + 1) `mod` num_tasks (self σ) ≠ 0 →
  task_models (self σ) = Some tm →
  selected_tasks (self σ) = Some sel →
  w (self σ) = Some ws →
  0 ≤ (current_epoch (trn σ) + 1) `mod` num_tasks (self σ) < Z.of_nat (length sel) →
  length ws = length sel →
  ∃ σ', on_train_epoch_end rand exp σ = Returns tt σ'.
Proof.
  intros Hn He Htm Hsel Hw Hidx Hlen.
  destruct (py_getitem_in_range sel _ Hidx) as [t Ht].
  destruct (py_getitem_in_range ws ((current_epoch (trn σ) + 1)
              `mod` num_tasks (self σ))) as [x Hx]; [lia|].
  eexists. unfold on_train_epoch_end. mrun. rewrite Htm. simpl.
  rewrite decide_False by done. simpl. rewrite bool_decide_false by done. simpl.
  erewrite _load_task_run; [reflexivity|simpl; exact Hsel|simpl; exact Hw|done..].
Qed.

End Methods.

(** ** The outer-loop update: C1, C5, C8 *)







(** C5. If every snapshot of the meta-epoch, that of the current epoch
    included, is identical to the meta model, then the outer-loop update
    computes the meta model itself, and [on_train_epoch_end] returns with
    the module's parameters equal to the meta model. *)
Theorem outer_update_idempotent (rand : nat → nat) (exp : Qc → Qc)
    (σ : world) (meta : state_dict) (tm : list state_dict) :
  1 ≤ num_tasks (self σ) →
  (current_epoch (trn σ) + 1) `mod` num_tasks (self σ) = 0 →
  task_set (self σ) ≠ [] →
  meta_model_state_dict (self σ) = Some meta →
  task_models (self σ) = Some tm →
  Forall (λ fw, fw = meta) tm →
  params (module σ) = meta →
  outer_state_dict (alpha (self σ)) meta (tm ++ [params (module σ)]) = Ok meta
  ∧ ∃ σ', on_train_epoch_end rand exp σ = Returns tt σ'
          ∧ params (module σ') = meta.
Proof.
  intros Hn He Hts Hm Htm Hall Hp.
  assert (Hsd : outer_state_dict (alpha (self σ)) meta (tm ++ [params (module σ)])
                = Ok meta).
  { apply outer_state_dict_unchanged; [by destruct tm|].
    apply Forall_app. split; [done|]. by repeat constructor. }
  split; [done|].
  destruct (on_train_epoch_end_outer_run rand exp σ meta tm meta)
    as (σ' & Hrun & Hp'); try done.
  { rewrite Hp. by apply same_shape_strict_ok. }
  exists σ'. split; [done|]. rewrite Hp', <-Hp. apply params_to_dtypes.
Qed.

Lemma outer_update_idempotent_witness :
  let meta := example_params 1 2 10 in
  let σ := example_end3 meta meta meta meta meta in
  outer_state_dict (Q2Qc 0.5) meta ([meta; meta; meta] ++ [meta]) = Ok meta
  ∧ ∃ σ', on_train_epoch_end rand_model exp_model σ = Returns tt σ'
          ∧ params (module σ') = meta.
Proof.
  intros meta σ.
  apply (outer_update_idempotent rand_model exp_model σ meta [meta; meta; meta]);
    [simpl; lia | reflexivity | done | reflexivity | reflexivity
    | by repeat constructor | reflexivity].
Defined.

(** C8. At the end of an epoch that closes a meta-epoch, if some task
    snapshot (that of the current epoch included) lacks a key of the meta
    model, [on_train_epoch_end] raises an exception and the module keeps
    the parameters and generator it had. *)
Theorem outer_update_missing_key (rand : nat → nat) (exp : Qc → Qc)
    (σ : world) (meta : state_dict) (tm : list state_dict)
    (fw : state_dict) (k : string) :
  num_tasks (self σ) ≠ 0 →
  (current_epoch (trn σ) + 1) `mod` num_tasks (self σ) = 0 →
  meta_model_state_dict (self σ) = Some meta →
  task_models (self σ) = Some tm →
  fw ∈ tm ++ [params (module σ)] →
  is_Some (meta !! k) →
  fw !! k = None →
  ∃ e σ', on_train_epoch_end rand exp σ = Raises e σ'
          ∧ module σ' = module σ.
Proof.
  intros Hn He Hm Htm Hin Hk Hfw.
  destruct (outer_state_dict_missing (alpha (self σ)) meta _ k fw Hk Hin Hfw)
    as [e Hsd].
  exists e, (appended σ tm). split; [|done].
  by apply on_train_epoch_end_outer_Raises with (meta := meta).
Qed.

Lemma outer_update_missing_key_witness :
  let meta := example_params 1 2 10 in
  let partial : state_dict := <["layer.bias" := [Qc_of_Z 10]]> ∅ in
  let σ := example_end3 meta meta partial meta meta in
  ∃ e σ', on_train_epoch_end rand_model exp_model σ = Raises e σ'
          ∧ module σ' = module σ.
Proof.
  intros meta partial σ.
  apply (outer_update_missing_key rand_model exp_model σ meta
           [meta; partial; meta] partial "layer.weight").
  - done.
  - reflexivity.
  - reflexivity.
  - reflexivity.
  - apply list_elem_of_In. simpl. tauto.
  - by eexists.
  - reflexivity.
Defined.

(** ** The schedule of the epochs: C2 *)



(** ** The alpha scheduler: C6 *)

(** C6. Each call of the alpha scheduler returns and sets [alpha] to the
    larger of [alpha * alpha_decay] and [0.0001]; and after any number
    [n >= 1] of calls, from any state, [alpha] is at least [0.0001]. *)
Theorem alpha_scheduler_floor :
  (∀ σ, ∃ σ', _alpha_scheduler σ = Returns tt σ'
      ∧ let x := (alpha (self σ) * alpha_decay (self σ))%Qc in
        let a' := alpha (self σ') in
        (x ≤ a')%Qc ∧ (Q2Qc 0.0001 ≤ a')%Qc ∧ (a' = x ∨ a' = Q2Qc 0.0001))
  ∧ (∀ σ n, (1 ≤ n)%nat →
      ∃ σ', times n _alpha_scheduler σ = Returns tt σ'
            ∧ (Q2Qc 0.0001 ≤ alpha (self σ'))%Qc).
Proof.
  split.
  - intros σ. eexists. split; [apply _alpha_scheduler_run|]. simpl.
    apply py_max_spec.
  - intros σ [|n] Hn; [lia|]. simpl. unfold mbind, M_bind, bind.
    rewrite _alpha_scheduler_run. apply times_alpha_scheduler. simpl.
    apply py_max_spec.
Qed.

Lemma alpha_scheduler_floor_witness :
  ∃ σ', times 3 _alpha_scheduler example_start = Returns tt σ'
        ∧ (Q2Qc 0.0001 ≤ alpha (self σ'))%Qc.
Proof. apply (proj2 alpha_scheduler_floor example_start 3%nat). lia. Defined.

(** ** Loading a task: C7 *)

(** C7. Loading the task [(s,)] into a generator that has a [capacity]
    returns, sets [num_loc] to [s] and sets [capacity] to the least integer
    that is at least [30 + s/5] when [s >= 20], and to [20] otherwise; a
    task of size [10] gives capacity [20]. *)
Theorem load_task_capacity (task_idx : Z) (σ : world) sel ws (s : Z) (x : Qc) (c0 : Z) :
  selected_tasks (self σ) = Some sel → w (self σ) = Some ws →
  py_getitem sel task_idx = Ok (Task s) → py_getitem ws task_idx = Ok x →
  capacity (env_generator (module σ)) = Some c0 →
  ∃ σ' c, _load_task task_idx σ = Returns tt σ'
    ∧ num_loc (env_generator (module σ')) = s
    ∧ capacity (env_generator (module σ')) = Some c
    ∧ (20 ≤ s → (inject_Z c - 1 < 30 + inject_Z s / 5)%Q
                ∧ (30 + inject_Z s / 5 <= inject_Z c)%Q)
    ∧ (s < 20 → c = 20)
    ∧ (s = 10 → c = 20).
Proof.
  intros Hsel Hw Ht Hx Hc. eexists _, _.
  split; [by eapply _load_task_run|]. simpl. rewrite Hc.
  split_and!; [done | done | | |].
  - intros Hs. rewrite decide_True by done. apply py_ceil_capacity.
  - intros Hs. by rewrite decide_False by lia.
  - intros ->. done.
Qed.

Lemma load_task_capacity_witness :
  ∃ σ' c, _load_task 1 (example_end3 ∅ ∅ ∅ ∅ ∅) = Returns tt σ'
    ∧ num_loc (env_generator (module σ')) = 4
    ∧ capacity (env_generator (module σ')) = Some c
    ∧ (20 ≤ 4 → (inject_Z c - 1 < 30 + inject_Z 4 / 5)%Q
                ∧ (30 + inject_Z 4 / 5 <= inject_Z c)%Q)
    ∧ (4 < 20 → c = 20)
    ∧ (4 = 10 → c = 20).
Proof.
  apply (load_task_capacity 1 (example_end3 ∅ ∅ ∅ ∅ ∅)
           [Task 50; Task 4; Task 3; Task 5]
           [Q2Qc 0.25; Q2Qc 0.25; Q2Qc 0.25; Q2Qc 0.25] 4 (Q2Qc 0.25) 20);
    reflexivity.
Defined.

(** ** The task sampler: C9 *)

(** C9. When the task set is the enumeration of the sizes
    [min_size..max_size] (not empty) and [num_tasks] is a count, a call of
    the task sampler returns; afterwards [selected_tasks] is a list of
    exactly [num_tasks] one-tuples [(n,)], each drawn from the task set
    with [min_size <= n <= max_size], and [w] has [num_tasks] entries, all
    equal to [1/num_tasks]. *)
Theorem sample_task_selected (rand : nat → nat) (exp : Qc → Qc)
    (σ : world) (min_size max_size : Z) :
  (∀ x, (0 < exp x)%Qc) →
  task_set (self σ) = Task <$> py_range min_size (max_size + 1) →
  min_size ≤ max_size →
  0 ≤ num_tasks (self σ) →
  ∃ σ' sel ws,
    _sample_task rand exp σ = Returns tt σ'
    ∧ selected_tasks (self σ') = Some sel
    ∧ Z.of_nat (length sel) = num_tasks (self σ)
    ∧ Forall (λ t, t ∈ task_set (self σ)
                   ∧ ∃ n, t = Task n ∧ min_size ≤ n ≤ max_size) sel
    ∧ w (self σ') = Some ws
    ∧ Z.of_nat (length ws) = num_tasks (self σ)
    ∧ Forall (λ x, x = (1 / Qc_of_Z (num_tasks (self σ)))%Qc) ws.
Proof.
  intros Hexp Hts Hsz Hn.
  destruct (_sample_task_run rand exp σ) as (picks & Hlen & Hall & Hrun).
  { rewrite Hts. unfold py_range. intros Hnil%fmap_nil_inv.
    apply (f_equal length) in Hnil. rewrite length_seqZ in Hnil. simpl in Hnil. lia. }
  eexists _, picks, _. split; [exact Hrun|]. simpl.
  split_and!; [done | lia | | done | |].
  - eapply Forall_impl; [exact Hall|]. intros t Ht. split; [done|].
    rewrite Hts in Ht. apply list_elem_of_fmap in Ht as (n & -> & Hin).
    exists n. split; [done|]. unfold py_range in Hin.
    apply elem_of_seqZ in Hin. lia.
  - rewrite softmax_uniform, length_replicate; [lia|].
    apply not_symmetry, Qclt_not_eq, Hexp.
  - rewrite softmax_uniform by apply not_symmetry, Qclt_not_eq, Hexp.
    rewrite Z2Nat.id by done. apply Forall_replicate. done.
Qed.

Lemma sample_task_selected_witness :
  ∃ σ' sel ws,
    _sample_task rand_model exp_model example_start = Returns tt σ'
    ∧ selected_tasks (self σ') = Some sel
    ∧ Z.of_nat (length sel) = 4
    ∧ Forall (λ t, t ∈ [Task 3; Task 4; Task 5]
                   ∧ ∃ n, t = Task n ∧ 3 ≤ n ≤ 5) sel
    ∧ w (self σ') = Some ws
    ∧ Z.of_nat (length ws) = 4
    ∧ Forall (λ x, x = (1 / Qc_of_Z 4)%Qc) ws.
Proof.
  apply (sample_task_selected rand_model exp_model example_start 3 5).
  - apply exp_model_pos.
  - reflexivity.
  - lia.
  - simpl. lia.
Defined.

(** ** The start of the fit: C10 *)

Example init_example :
  init 4 (Q2Qc 0.5) (Q2Qc 0.9) 3 5 (Q2Qc 0.9) "size" true = Ok example_callback.
Proof. reflexivity. Qed.

Example init_unsupported :
  init 4 (Q2Qc 0.5) (Q2Qc 0.9) 3 5 (Q2Qc 0.9) "capacity" true
    = Error NotImplementedError.
Proof. reflexivity. Qed.

(** C10. [on_fit_start], on a callback with at least one task to sample and
    a task set that is not empty, returns with [selected_tasks[0]] replaced
    by the one-tuple of the generator's current [num_loc], the other
    entries drawn from the task set and the module untouched; the
    [on_train_epoch_start] of epoch [0] then returns and leaves the
    generator as preconfigured, so the first epoch trains on that size.
    And there is a state where that size is outside
    [min_size..max_size]. *)
Theorem fit_start_first_task :
  (∀ (rand : nat → nat) (exp : Qc → Qc) (σ : world),
     1 ≤ num_tasks (self σ) → task_set (self σ) ≠ [] →
     ∃ σ' rest,
       on_fit_start rand exp σ = Returns tt σ'
       ∧ selected_tasks (self σ')
           = Some (Task (num_loc (env_generator (module σ))) :: rest)
       ∧ Z.of_nat (length rest) = num_tasks (self σ) - 1
       ∧ Forall (λ t, t ∈ task_set (self σ)) rest
       ∧ module σ' = module σ
       ∧ (current_epoch (trn σ) = 0 →
          ∃ σ'', on_train_epoch_start σ' = Returns tt σ''
                 ∧ env_generator (module σ'') = env_generator (module σ)))
  ∧ (∃ (σ : world) (min_size max_size : Z),
       task_set (self σ) = Task <$> py_range min_size (max_size + 1)
       ∧ ∀ (rand : nat → nat) (exp : Qc → Qc),
           ∃ σ' t rest,
             on_fit_start rand exp σ = Returns tt σ'
             ∧ selected_tasks (self σ') = Some (t :: rest)
             ∧ t = Task (num_loc (env_generator (module σ)))
             ∧ ¬ (min_size ≤ item0 t ≤ max_size)
             ∧ t ∉ task_set (self σ')).
Proof.
  assert (Hall : ∀ (rand : nat → nat) (exp : Qc → Qc) (σ : world),
     1 ≤ num_tasks (self σ) → task_set (self σ) ≠ [] →
     ∃ σ' rest,
       on_fit_start rand exp σ = Returns tt σ'
       ∧ selected_tasks (self σ')
           = Some (Task (num_loc (env_generator (module σ))) :: rest)
       ∧ Z.of_nat (length rest) = num_tasks (self σ) - 1
       ∧ Forall (λ t, t ∈ task_set (self σ)) rest
       ∧ module σ' = module σ
       ∧ task_set (self σ') = task_set (self σ)
       ∧ (current_epoch (trn σ) = 0 →
          ∃ σ'', on_train_epoch_start σ' = Returns tt σ''
                 ∧ env_generator (module σ'') = env_generator (module σ))).
  { intros rand exp σ Hn Hts.
    destruct (on_fit_start_run rand exp σ Hn Hts) as (rest & Hlen & Hin & Hrun).
    eexists _, rest. split; [exact Hrun|]. simpl. split_and!; try done.
    intros He. rewrite on_train_epoch_start_snapshot; simpl.
    + eexists. split; [reflexivity|done].
    + lia.
    + rewrite He. apply Z.mod_0_l. lia.
    + by eauto. }
  split.
  - intros rand exp σ Hn Hts.
    destruct (Hall rand exp σ Hn Hts) as (σ' & rest & ? & ? & ? & ? & ? & _ & ?).
    by exists σ', rest.
  - exists example_start, 3, 5. split; [reflexivity|]. intros rand exp.
    destruct (Hall rand exp example_start) as (σ' & rest & Hr & Hs & _ & _ & _ & Ht & _);
      [simpl; lia | done |].
    exists σ', (Task 50), rest. split_and!; [done | done | done | simpl; lia |].
    rewrite Ht. simpl. rewrite !elem_of_cons, elem_of_nil.
    intros [[=]|[[=]|[[=]|[]]]].
Qed.

Lemma fit_start_first_task_witness :
  ∃ σ' rest,
    on_fit_start rand_model exp_model example_start = Returns tt σ'
    ∧ selected_tasks (self σ') = Some (Task 50 :: rest)
    ∧ Z.of_nat (length rest) = 3
    ∧ Forall (λ t, t ∈ [Task 3; Task 4; Task 5]) rest
    ∧ module σ' = module example_start
    ∧ (0 = 0 →
       ∃ σ'', on_train_epoch_start σ' = Returns tt σ''
              ∧ env_generator (module σ'') = Generator 50 (Some 40)).
Proof.
  apply (proj1 fit_start_first_task rand_model exp_model example_start);
    [simpl; lia | done].
Defined.

(** ** A run of the training loop *)

Section Run.
Variable rand : nat → nat.
Variable exp : Qc → Qc.
Variable training : M unit.

(** The training of an epoch returns and changes nothing but the values
    of the module's parameters. *)
Hypothesis training_frame : ∀ σ, ∃ p,
  same_shape p (params (module σ))
  ∧ training σ = Returns tt (with_module (set_params p) σ).

Lemma on_train_epoch_end_outer_state (σ : world) meta tm :
  well_formed σ →
  (current_epoch (trn σ) + 1) `mod` num_tasks (self σ) = 0 →
  holds_snapshots σ meta tm (current_epoch (trn σ) `mod` num_tasks (self σ)) →
  ∃ σ', on_train_epoch_end rand exp σ = Returns tt σ'
        ∧ well_formed σ' ∧ trn σ' = trn σ
        ∧ num_tasks (self σ') = num_tasks (self σ).
Proof.
  intros (Hn & He0 & Hts & _) He (Hm & Htm & Hc & Hsh & Hall).
  destruct (outer_state_dict_total (alpha (self σ)) meta
              (tm ++ [params (module σ)])) as (new_sd & Hsd & Hnew).
  { by destruct tm. }
  { apply Forall_app. split; [done|]. by repeat constructor. }
  assert (Hok : strict_ok new_sd (params (module σ))).
  { by apply same_shape_strict_ok, (same_shape_trans _ meta). }
  set (σ1 := with_module (set_params (to_dtypes (module σ) new_sd))
               (appended σ tm)).
  destruct (_sample_task_run rand exp σ1) as (picks & Hlen & _ & Hrun); [done|].
  destruct picks as [|t0 rest] eqn:Hpicks; [simpl in Hlen; lia|].
  destruct (Tensor.softmax exp (replicate (Z.to_nat (num_tasks (self σ1))) 1%Qc))
    as [|x ws] eqn:Hw.
  { apply (f_equal length) in Hw. unfold Tensor.softmax in Hw.
    rewrite length_fmap, length_replicate in Hw. simpl in *. lia. }
  assert (Hwlen : length (x :: ws) = length (t0 :: rest)).
  { rewrite <-Hw. unfold Tensor.softmax. rewrite length_fmap, length_replicate.
    by rewrite Hlen. }
  eexists. split.
  - unfold on_train_epoch_end. mrun. rewrite Htm. simpl.
    rewrite decide_False by lia. simpl. rewrite He. simpl. rewrite Hm. simpl.
    rewrite Hsd. simpl. rewrite load_state_dict_run by done.
    match goal with
    | |- context [_sample_task rand exp ?x] => change x with σ1
    end.
    rewrite Hrun.
    erewrite _load_task_run; [reflexivity|simpl; reflexivity|simpl; reflexivity
                              |apply py_getitem_0|apply py_getitem_0].
  - unfold well_formed. simpl. split_and!; try done.
    exists (t0 :: rest), (x :: ws). split_and!; try done.
    simpl in Hlen. simpl. lia.
Qed.

Lemma on_train_epoch_end_inner_state (σ : world) meta tm :
  well_formed σ →
  (current_epoch (trn σ) + 1) `mod` num_tasks (self σ) ≠ 0 →
  holds_snapshots σ meta tm (current_epoch (trn σ) `mod` num_tasks (self σ)) →
  ∃ σ', on_train_epoch_end rand exp σ = Returns tt σ'
        ∧ well_formed σ' ∧ trn σ' = trn σ
        ∧ num_tasks (self σ') = num_tasks (self σ)
        ∧ holds_snapshots σ' meta (tm ++ [params (module σ)])
            ((current_epoch (trn σ) + 1) `mod` num_tasks (self σ)).
Proof.
  intros (Hn & He0 & Hts & sel & ws & Hsel & Hw & Hlsel & Hlws) He
         (Hm & Htm & Hc & Hsh & Hall).
  pose proof (Z.mod_pos_bound (current_epoch (trn σ) + 1) (num_tasks (self σ))) as Hb.
  destruct (on_train_epoch_end_inner_run rand exp σ tm sel ws) as [σ' Hrun];
    try done; [lia | lia |].
  exists σ'. split; [done|].
  destruct (on_train_epoch_end_inner_Returns rand exp σ σ' He Hrun)
    as (tm' & Htm' & Hself & Hp & Htrn).
  simplify_eq. unfold well_formed, holds_snapshots.
  rewrite Hself, Htrn, Hp. simpl.
  split_and!; try done.
  - by exists sel, ws.
  - rewrite length_app. simpl. rewrite succ_mod in He |- * by lia.
    case_decide; [done | lia].
  - apply Forall_app. split; [done|]. by repeat constructor.
Qed.

Lemma trained_shape (σ1 : world) (p meta : state_dict) :
  same_shape p (params (module σ1)) → same_shape meta (params (module σ1)) →
  same_shape meta (params (module (with_module (set_params p) σ1))).
Proof.
  simpl. rewrite params_set_params. unfold same_shape. intros Hp Hm.
  rewrite (to_dtypes_same_shape (module σ1) p). congruence.
Qed.

Lemma epoch_start_training (σ : world) :
  epoch_invariant σ →
  ∃ σ1 σ2 meta tm,
    on_train_epoch_start σ = Returns tt σ1
    ∧ training σ1 = Returns tt σ2
    ∧ well_formed σ2 ∧ trn σ2 = set_lr (next_lr σ) (trn σ)
    ∧ num_tasks (self σ2) = num_tasks (self σ)
    ∧ holds_snapshots σ2 meta tm
        (current_epoch (trn σ) `mod` num_tasks (self σ)).
Proof.
  intros [(Hn & He0 & Hts & sel & ws & Hsel & Hw & Hlsel & Hlws) Hmid].
  destruct (decide (current_epoch (trn σ) `mod` num_tasks (self σ) = 0)) as [He|He].
  - set (σ1 := World (set_task_models []
                (set_meta_model_state_dict (params (module σ))
                   (set_alpha (next_alpha σ) (self σ))))
         (module σ) (set_lr (next_lr σ) (trn σ)) (draws σ)).
    destruct (training_frame σ1) as (p & Hp & Htr).
    eexists σ1, _, (params (module σ)), []. split_and!; [|exact Htr|..].
    + apply on_train_epoch_start_snapshot; [lia | done | by eauto].
    + unfold well_formed. simpl. split_and!; try done. by exists sel, ws.
    + done.
    + done.
    + unfold holds_snapshots. split_and!; [done | done | done | | done].
      by apply trained_shape.
  - destruct (Hmid He) as (meta & tm & Hm & Htm & Hc & Hsh & Hall).
    set (σ1 := World (set_alpha (next_alpha σ) (self σ))
         (set_params (to_dtypes (module σ) meta) (module σ))
         (set_lr (next_lr σ) (trn σ)) (draws σ)).
    destruct (training_frame σ1) as (p & Hp & Htr).
    eexists σ1, _, meta, tm. split_and!; [|exact Htr|..].
    + apply on_train_epoch_start_reset; [lia | done | done |].
      by apply same_shape_strict_ok.
    + unfold well_formed. simpl. split_and!; try done. by exists sel, ws.
    + done.
    + done.
    + unfold holds_snapshots. split_and!; [done | done | done | | done].
      apply trained_shape; [done|]. simpl.
      rewrite params_set_params, to_dtypes_idemp. unfold same_shape.
      by rewrite (to_dtypes_same_shape (module σ) meta).
Qed.

Lemma epoch_run (σ : world) :
  epoch_invariant σ →
  ∃ σ', epoch rand exp training σ = Returns tt σ'
        ∧ epoch_invariant σ'
        ∧ current_epoch (trn σ') = current_epoch (trn σ) + 1
        ∧ num_tasks (self σ') = num_tasks (self σ).
Proof.
  intros Hinv.
  destruct (epoch_start_training σ Hinv)
    as (σ1 & σ2 & meta & tm & H1 & H2 & Hwf & Htrn & Hnum & Hsnap).
  assert (He2 : current_epoch (trn σ2) = current_epoch (trn σ)) by by rewrite Htrn.
  rewrite <-Hnum, <-He2 in Hsnap.
  destruct (decide ((current_epoch (trn σ2) + 1) `mod` num_tasks (self σ2) = 0))
    as [He|He].
  - destruct (on_train_epoch_end_outer_state σ2 meta tm Hwf He Hsnap)
      as (σ3 & H3 & (Hn3 & He3 & Hts3 & Hsel3) & Htrn3 & Hnum3).
    exists (with_trainer next_epoch σ3). split_and!.
    + unfold epoch. mrun. rewrite H1. simpl. rewrite H2. simpl. by rewrite H3.
    + split.
      * unfold well_formed. simpl. split_and!; try done. lia.
      * simpl. rewrite Htrn3, Hnum3. by intros [].
    + simpl. by rewrite Htrn3, He2.
    + simpl. by rewrite Hnum3.
  - destruct (on_train_epoch_end_inner_state σ2 meta tm Hwf He Hsnap)
      as (σ3 & H3 & (Hn3 & He3 & Hts3 & Hsel3) & Htrn3 & Hnum3 & Hsnap3).
    exists (with_trainer next_epoch σ3). split_and!.
    + unfold epoch. mrun. rewrite H1. simpl. rewrite H2. simpl. by rewrite H3.
    + split.
      * unfold well_formed. simpl. split_and!; try done. lia.
      * simpl. rewrite Htrn3, Hnum3. intros _. by exists meta, (tm ++ [params (module σ2)]).
    + simpl. by rewrite Htrn3, He2.
    + simpl. by rewrite Hnum3.
Qed.

Lemma times_epoch_run (k : nat) (σ : world) :
  epoch_invariant σ →
  ∃ σ', times k (epoch rand exp training) σ = Returns tt σ'
        ∧ epoch_invariant σ'
        ∧ current_epoch (trn σ') = current_epoch (trn σ) + Z.of_nat k.
Proof.
  revert σ. induction k as [|k IH]; intros σ Hinv.
  - exists σ. split_and!; [done | done | lia].
  - destruct (epoch_run σ Hinv) as (σ1 & H1 & Hinv1 & He1 & _).
    destruct (IH σ1 Hinv1) as (σ' & Hrun & Hinv' & He').
    exists σ'. split_and!; [|done|lia].
    simpl. apply bind_Returns. by exists tt, σ1.
Qed.

(** A run of [k] epochs from a callback with a positive number of tasks
    and a task set that is not empty raises no exception, and ends in a
    state from which the next epoch can run. *)
Lemma fit_run (k : nat) (σ : world) :
  1 ≤ num_tasks (self σ) → task_set (self σ) ≠ [] →
  current_epoch (trn σ) = 0 →
  ∃ σ', fit rand exp training k σ = Returns tt σ'
        ∧ epoch_invariant σ'
        ∧ current_epoch (trn σ') = Z.of_nat k.
Proof.
  intros Hn Hts He.
  destruct (on_fit_start_run rand exp σ Hn Hts) as (rest & Hlen & _ & Hrun).
  match type of Hrun with _ = Returns tt ?s => set (σ0 := s) in * end.
  destruct (times_epoch_run k σ0) as (σ' & Hk & Hinv & He').
  - split.
    + unfold well_formed. simpl. split_and!; [done | lia | done |].
      eexists _, _. split_and!; [done | done | simpl; lia |].
      unfold Tensor.softmax. rewrite length_fmap, length_replicate. simpl. lia.
    + simpl. rewrite He, Z.mod_0_l by lia. done.
  - exists σ'. split_and!; [|done|].
    + unfold fit. apply bind_Returns. by exists tt, σ0.
    + rewrite He'. simpl. lia.
Qed.

(** In a run, at the end of an epoch [e] with [(e+1) mod num_tasks = 0]
    the callback holds [num_tasks - 1] earlier snapshots, all with the
    keys and shapes of the meta model. *)
Lemma snapshots_at_meta_epoch_end (σ : world) :
  epoch_invariant σ →
  (current_epoch (trn σ) + 1) `mod` num_tasks (self σ) = 0 →
  ∃ σ1 σ2 meta tm,
    on_train_epoch_start σ = Returns tt σ1
    ∧ training σ1 = Returns tt σ2
    ∧ meta_model_state_dict (self σ2) = Some meta
    ∧ task_models (self σ2) = Some tm
    ∧ Z.of_nat (length tm) + 1 = num_tasks (self σ2)
    ∧ (current_epoch (trn σ2) + 1) `mod` num_tasks (self σ2) = 0
    ∧ Forall (same_shape meta) (tm ++ [params (module σ2)])
    ∧ task_set (self σ2) ≠ [].
Proof.
  intros Hinv He.
  destruct (epoch_start_training σ Hinv)
    as (σ1 & σ2 & meta & tm & H1 & H2 & Hwf & Htrn & Hnum
        & Hm & Htm & Hc & Hsh & Hall).
  destruct Hwf as (Hn & _ & Hts & _).
  exists σ1, σ2, meta, tm. rewrite Htrn, Hnum. simpl.
  split_and!; try done.
  - rewrite succ_mod in He by lia. case_decide; lia.
  - apply Forall_app. split; [done|]. by repeat constructor.
Qed.

End Run.

Lemma example_training_frame (σ : world) :
  ∃ p, same_shape p (params (module σ))
       ∧ example_training σ = Returns tt (with_module (set_params p) σ).
Proof.
  eexists. split; [|reflexivity]. unfold same_shape.
  rewrite <-map_fmap_compose. apply map_fmap_ext. intros k t _. simpl.
  by rewrite length_fmap.
Qed.

Example fit_example :
  ∃ σ', fit rand_model exp_model example_training 8 example_start = Returns tt σ'
        ∧ epoch_invariant σ'
        ∧ current_epoch (trn σ') = 8.
Proof.
  apply (fit_run rand_model exp_model example_training example_training_frame
           8 example_start); [simpl; lia | done | done].
Qed.

(** * Properties of the JSSP environment *)

Import JSSP.

Example mask_running_no_ops :
  get_action_mask spec_availability true [example_running] = [[false; false; true]].
Proof. reflexivity. Qed.

Example mask_running_waiting :
  get_action_mask spec_availability false [example_running] = [[true; false; true]].
Proof. reflexivity. Qed.

Example mask_finished :
  get_action_mask spec_availability true [example_finished] = [[true; false; false]].
Proof. reflexivity. Qed.

Lemma get_action_mask_lookup avail (mask_no_ops : bool) (td : TensorDict)
    (b : nat) (i : instance) :
  length (avail td) = length td → td !! b = Some i →
  ∃ jobs, avail td !! b = Some jobs
    ∧ get_action_mask avail mask_no_ops td !! b =
        Some ((if mask_no_ops then done_ i
               else any (job_in_process i) || done_ i)
              :: (negb ∘ all <$> jobs)).
Proof.
  intros Hlen Hb.
  destruct (lookup_lt_is_Some_2 (avail td) b) as [jobs Hjobs].
  { rewrite Hlen. by eapply lookup_lt_Some. }
  exists jobs. split; [done|]. unfold get_action_mask, invert.
  rewrite lookup_zip_with, !list_lookup_fmap, Hjobs. simpl.
  destruct mask_no_ops; rewrite list_lookup_fmap, Hb; simpl.
  - rewrite negb_involutive. f_equal. f_equal. by rewrite <-list_fmap_compose.
  - rewrite negb_andb, !negb_involutive. f_equal. f_equal.
    by rewrite <-list_fmap_compose.
Qed.

(** C3 (as the code has it). In the mask of every batch entry, the no-op
    is feasible exactly when the instance is finished if [mask_no_ops] is
    set, and exactly when the instance is finished or some job is in
    process if it is not. *)
Theorem no_op_feasible avail (mask_no_ops : bool) (td : TensorDict)
    (b : nat) (i : instance) :
  length (avail td) = length td → td !! b = Some i →
  ∃ row, get_action_mask avail mask_no_ops td !! b = Some row
    ∧ row !! 0%nat =
        Some (if mask_no_ops then done_ i
              else any (job_in_process i) || done_ i).
Proof.
  intros Hlen Hb.
  destruct (get_action_mask_lookup avail mask_no_ops td b i Hlen Hb)
    as (jobs & _ & Hrow).
  eexists. split; [exact Hrow | done].
Qed.

Lemma no_op_feasible_witness :
  ∃ row, get_action_mask spec_availability false [example_running] !! 0%nat
           = Some row
    ∧ row !! 0%nat = Some true.
Proof.
  apply (no_op_feasible spec_availability false [example_running] 0 example_running);
    reflexivity.
Defined.

(** C3 as stated fails on both counts. It is not true that the no-op is
    feasible only while the instance is not finished: with [mask_no_ops]
    set, the no-op of the finished [example_finished] is feasible. And it
    is not true that, with [mask_no_ops] not set, the no-op is feasible
    only if no job is idle and eligible: in [example_running] it is
    feasible while job [1] is idle and eligible. *)
Lemma no_op_feasible_counterexample :
  ¬ (∀ (mask_no_ops : bool) (td : TensorDict) (b : nat) (i : instance)
       (row : list bool),
       td !! b = Some i →
       get_action_mask spec_availability mask_no_ops td !! b = Some row →
       row !! 0%nat = Some true → done_ i = false)
  ∧ ¬ (∀ (td : TensorDict) (b : nat) (i : instance) (row : list bool),
         td !! b = Some i →
         get_action_mask spec_availability false td !! b = Some row →
         row !! 0%nat = Some true → ∀ j, idle_and_eligible i j = false).
Proof.
  split.
  - intros H.
    specialize (H true [example_finished] 0%nat example_finished
                  [true; false; false] eq_refl eq_refl eq_refl).
    discriminate H.
  - intros H.
    specialize (H [example_running] 0%nat example_running
                  [true; false; true] eq_refl eq_refl eq_refl 1%nat).
    discriminate H.
Qed.

(** ** The reward *)

Lemma foldl_py_max_spec (t : tensor) (x : Qc) :
  (x ≤ foldl py_max x t)%Qc
  ∧ (∀ y, y ∈ t → (y ≤ foldl py_max x t)%Qc)
  ∧ foldl py_max x t ∈ x :: t.
Proof.
  revert x. induction t as [|z t IH]; intros x; simpl.
  - split_and!; [done | by intros ? ?%elem_of_nil | by left].
  - destruct (IH (py_max x z)) as (H1 & H2 & H3).
    destruct (py_max_spec x z) as (Hx & Hz & Hor).
    split_and!.
    + by etrans.
    + intros y [->|Hy]%elem_of_cons; [by etrans | by apply H2].
    + apply elem_of_cons in H3 as [->|H3].
      * destruct Hor as [-> | ->]; [by left | by right; left].
      * by right; right.
Qed.

Lemma max_over_spec (t : tensor) :
  (∀ y, y ∈ t → (y ≤ max_over t)%Qc) ∧ (t ≠ [] → max_over t ∈ t).
Proof.
  destruct t as [|x t]; simpl.
  - split; [by intros ? ?%elem_of_nil | done].
  - destruct (foldl_py_max_spec t x) as (H1 & H2 & H3).
    split; [|done]. intros y [->|Hy]%elem_of_cons; auto.
Qed.

(** C4. The reward of every state, reachable or not, is exactly [0] while
    some job is not done; when every job is done it is minus the makespan,
    the greatest of the machines' busy-until times. *)
Theorem reward_sparse (i : instance) :
  (is_done i = false → reward i = 0%Qc)
  ∧ (is_done i = true →
     ∃ M, reward i = (- M)%Qc
       ∧ (∀ m t, busy_until i !! m = Some t → (t ≤ M)%Qc)
       ∧ (busy_until i ≠ [] → M ∈ busy_until i)).
Proof.
  unfold reward. split; intros ->; [done|].
  exists (makespan i). destruct (max_over_spec (busy_until i)) as [H1 H2].
  split_and!; [done | | done].
  intros m t Hm. apply H1. by eapply list_elem_of_lookup_2.
Qed.

Lemma reward_sparse_witness :
  reward example_running = 0%Qc
  ∧ ∃ M, reward example_finished = (- M)%Qc
      ∧ (∀ m t, busy_until example_finished !! m = Some t → (t ≤ M)%Qc)
      ∧ (busy_until example_finished ≠ [] → M ∈ busy_until example_finished).
Proof.
  split.
  - apply (proj1 (reward_sparse example_running)). reflexivity.
  - apply (proj2 (reward_sparse example_finished)). reflexivity.
Defined.

(** * Further properties of the Reptile callback *)

(** ** Misconfigurations *)

Lemma py_range_nil (a b : Z) : b ≤ a → py_range a b = [].
Proof.
  intros H. unfold py_range, seqZ. by replace (Z.to_nat (b - a)) with 0%nat by lia.
Qed.

Lemma py_range_elem (a b n : Z) : n ∈ py_range a b ↔ a ≤ n < b.
Proof. unfold py_range. rewrite elem_of_seqZ. lia. Qed.

(** X1. [__init__] raises [NotImplementedError] for every [data_type] but
    ["size"]; for ["size"] it returns a callback whose task set holds the
    one-tuple of [n] exactly for [min_size <= n <= max_size], each once,
    and in which no task is selected and no model is saved yet. *)
Theorem init_task_set (n : Z) (a d : Qc) (lo hi : Z) (sb : Qc)
    (data_type : string) (pl : bool) :
  (data_type ≠ "size" →
     init n a d lo hi sb data_type pl = Error NotImplementedError)
  ∧ (data_type = "size" →
     ∃ cb, init n a d lo hi sb data_type pl = Ok cb
       ∧ (∀ t, t ∈ task_set cb ↔ lo ≤ item0 t ≤ hi)
       ∧ NoDup (task_set cb)
       ∧ Z.of_nat (length (task_set cb)) = Z.max 0 (hi - lo + 1)
       ∧ num_tasks cb = n
       ∧ selected_tasks cb = None ∧ w cb = None
       ∧ meta_model_state_dict cb = None ∧ task_models cb = None).
Proof.
  unfold init. split; intros Hdt.
  - by rewrite decide_False.
  - rewrite decide_True by done. eexists. split; [done|]. simpl.
    split_and!; try done.
    + intros [s]. rewrite list_elem_of_fmap. simpl. split.
      * intros (m & [= ->] & Hm%py_range_elem). lia.
      * intros Hs. exists s. split; [done|]. apply py_range_elem. lia.
    + apply NoDup_fmap_2; [by intros ?? [=]|]. apply NoDup_seqZ.
    + rewrite length_fmap. unfold py_range. rewrite length_seqZ. lia.
Qed.

Lemma init_task_set_witness :
  ∃ cb, init 4 (Q2Qc 0.5) (Q2Qc 0.9) 3 5 (Q2Qc 0.9) "size" true = Ok cb
    ∧ (∀ t, t ∈ task_set cb ↔ 3 ≤ item0 t ≤ 5)
    ∧ NoDup (task_set cb)
    ∧ Z.of_nat (length (task_set cb)) = Z.max 0 (5 - 3 + 1)
    ∧ num_tasks cb = 4
    ∧ selected_tasks cb = None ∧ w cb = None
    ∧ meta_model_state_dict cb = None ∧ task_models cb = None.
Proof.
  apply (proj2 (init_task_set 4 (Q2Qc 0.5) (Q2Qc 0.9) 3 5 (Q2Qc 0.9) "size" true)).
  reflexivity.
Defined.

Section Misconfigured.
Variable rand : nat → nat.
Variable exp : Qc → Qc.

Lemma sample_body_empty_set (b : Z) (σ : world) :
  task_set (self σ) = [] → _sample_task_body rand b σ = Raises ValueError σ.
Proof.
  intros Hts. unfold _sample_task_body, random_sample1. mrun. by rewrite Hts.
Qed.

Lemma sample_task_empty_set (σ : world) :
  task_set (self σ) = [] → 1 ≤ num_tasks (self σ) →
  _sample_task rand exp σ
    = Raises ValueError (with_self (set_selected_tasks []) σ).
Proof.
  intros Hts Hn. unfold _sample_task. mrun.
  unfold py_range, seqZ.
  destruct (Z.to_nat (num_tasks (self σ) - 0)) as [|k] eqn:Hk; [lia|].
  cbn [seq fmap list_fmap for_]. unfold mbind, M_bind, bind.
  by rewrite sample_body_empty_set.
Qed.

Lemma sample_task_no_tasks (σ : world) :
  num_tasks (self σ) ≤ 0 →
  _sample_task rand exp σ
    = Returns tt (with_self (set_w []) (with_self (set_selected_tasks []) σ)).
Proof.
  intros Hn. unfold _sample_task. mrun. rewrite py_range_nil by lia. simpl.
  by replace (Z.to_nat (num_tasks (self σ))) with 0%nat by lia.
Qed.

End Misconfigured.

(** X2. A size range with [max_size < min_size] passes [__init__] with an
    empty task set; with at least one task to sample, [_sample_task] and
    [on_fit_start] then raise [ValueError], leaving [selected_tasks] empty
    and everything else, the weights [w] included, as it was. *)
Theorem empty_task_set_raises_late (rand : nat → nat) (exp : Qc → Qc) :
  (∀ n a d lo hi sb pl, hi < lo →
     ∃ cb, init n a d lo hi sb "size" pl = Ok cb ∧ task_set cb = [])
  ∧ (∀ σ, task_set (self σ) = [] → 1 ≤ num_tasks (self σ) →
       _sample_task rand exp σ
         = Raises ValueError (with_self (set_selected_tasks []) σ)
       ∧ on_fit_start rand exp σ
         = Raises ValueError (with_self (set_selected_tasks []) σ)).
Proof.
  split.
  - intros n a d lo hi sb pl Hlt. eexists. split; [reflexivity|]. simpl.
    by rewrite py_range_nil by lia.
  - intros σ Hts Hn. split; [by apply sample_task_empty_set|].
    unfold on_fit_start. unfold mbind, M_bind, bind.
    by rewrite sample_task_empty_set.
Qed.

Lemma empty_task_set_raises_late_witness :
  let σ := World (Callback 4 (Q2Qc 0.5) (Q2Qc 0.9) (Q2Qc 0.9) true
                    [] None None None None)
             (PlModule ∅ (Generator 50 None)) (Trainer 0 8 (Q2Qc 0.001)) 0 in
  _sample_task rand_model exp_model σ
    = Raises ValueError (with_self (set_selected_tasks []) σ)
  ∧ on_fit_start rand_model exp_model σ
    = Raises ValueError (with_self (set_selected_tasks []) σ).
Proof.
  intros σ.
  apply (proj2 (empty_task_set_raises_late rand_model exp_model) σ);
    [reflexivity | simpl; lia].
Defined.

(** X3. With [num_tasks <= 0] the sampler draws nothing: it returns with
    [selected_tasks] and [w] both empty and the random generator unused;
    [on_fit_start] then raises [IndexError] on [selected_tasks[0]]. *)
Theorem no_tasks_index_error (rand : nat → nat) (exp : Qc → Qc) (σ : world) :
  num_tasks (self σ) ≤ 0 →
  let σ' := with_self (set_w []) (with_self (set_selected_tasks []) σ) in
  _sample_task rand exp σ = Returns tt σ'
  ∧ on_fit_start rand exp σ = Raises IndexError σ'.
Proof.
  intros Hn σ'. split; [by apply sample_task_no_tasks|].
  unfold on_fit_start. unfold mbind, M_bind, bind.
  by rewrite sample_task_no_tasks.
Qed.

Lemma no_tasks_index_error_witness :
  let σ := World (Callback 0 (Q2Qc 0.5) (Q2Qc 0.9) (Q2Qc 0.9) true
                    [Task 3] None None None None)
             (PlModule ∅ (Generator 50 None)) (Trainer 0 8 (Q2Qc 0.001)) 0 in
  let σ' := with_self (set_w []) (with_self (set_selected_tasks []) σ) in
  _sample_task rand_model exp_model σ = Returns tt σ'
  ∧ on_fit_start rand_model exp_model σ = Raises IndexError σ'.
Proof.
  intros σ. apply (no_tasks_index_error rand_model exp_model σ). simpl. lia.
Defined.

(** X4. With [num_tasks = 0] both epoch callbacks raise
    [ZeroDivisionError]: [on_train_epoch_start] after it has decayed
    [alpha], [on_train_epoch_end] after it has appended the snapshot of
    the epoch; nothing else has changed. *)
Theorem zero_tasks_zero_division (rand : nat → nat) (exp : Qc → Qc) (σ : world) :
  num_tasks (self σ) = 0 →
  on_train_epoch_start σ
    = Raises ZeroDivisionError (with_self (set_alpha (next_alpha σ)) σ)
  ∧ ∀ tm, task_models (self σ) = Some tm →
      on_train_epoch_end rand exp σ = Raises ZeroDivisionError (appended σ tm).
Proof.
  intros Hn. split.
  - unfold on_train_epoch_start, _alpha_scheduler. mrun. by rewrite decide_True.
  - intros tm Htm. unfold on_train_epoch_end. mrun. rewrite Htm. simpl.
    by rewrite decide_True.
Qed.

Lemma zero_tasks_zero_division_witness :
  let σ := World (Callback 0 (Q2Qc 0.5) (Q2Qc 0.9) (Q2Qc 0.9) true
                    [Task 3] None None None (Some []))
             (PlModule ∅ (Generator 50 None)) (Trainer 0 8 (Q2Qc 0.001)) 0 in
  on_train_epoch_start σ
    = Raises ZeroDivisionError (with_self (set_alpha (next_alpha σ)) σ)
  ∧ ∀ tm, task_models (self σ) = Some tm →
      on_train_epoch_end rand_model exp_model σ
        = Raises ZeroDivisionError (appended σ tm).
Proof.
  intros σ. apply (zero_tasks_zero_division rand_model exp_model σ). reflexivity.
Defined.

(** X5. A callback that holds no saved state cannot continue a
    meta-epoch: at an epoch with [current_epoch % num_tasks != 0],
    [on_train_epoch_start] raises
    [AttributeError] for the missing meta model, having only decayed
    [alpha]; and without [task_models], [on_train_epoch_end] raises
    [AttributeError] and changes nothing. *)
Theorem missing_state_attribute_error (rand : nat → nat) (exp : Qc → Qc)
    (σ : world) :
  (num_tasks (self σ) ≠ 0 →
   current_epoch (trn σ) `mod` num_tasks (self σ) ≠ 0 →
   meta_model_state_dict (self σ) = None →
   on_train_epoch_start σ
     = Raises AttributeError (with_self (set_alpha (next_alpha σ)) σ))
  ∧ (task_models (self σ) = None →
     on_train_epoch_end rand exp σ = Raises AttributeError σ).
Proof.
  split.
  - intros Hn He Hm. unfold on_train_epoch_start, _alpha_scheduler. mrun.
    rewrite decide_False by done. simpl. rewrite decide_False by done. simpl.
    by rewrite Hm.
  - intros Htm. unfold on_train_epoch_end. mrun. by rewrite Htm.
Qed.

Lemma missing_state_attribute_error_witness :
  let σ := World example_callback
             (PlModule (example_params 1 2 10) (Generator 50 (Some 40)))
             (Trainer 2 8 (Q2Qc 0.001)) 0 in
  on_train_epoch_start σ
    = Raises AttributeError (with_self (set_alpha (next_alpha σ)) σ)
  ∧ on_train_epoch_end rand_model exp_model σ = Raises AttributeError σ.
Proof.
  intros σ.
  destruct (missing_state_attribute_error rand_model exp_model σ) as [H1 H2].
  split; [apply H1; done | apply H2; done].
Defined.

(** ** Rational arithmetic *)

Lemma py_max_le (a b c : Qc) : (a ≤ c)%Qc → (b ≤ c)%Qc → (py_max a b ≤ c)%Qc.
Proof. intros. unfold py_max. by case_decide. Qed.

Lemma py_max_r (a b : Qc) : (a ≤ b)%Qc → py_max a b = b.
Proof.
  intros H. unfold py_max. case_decide as Hlt; [done|].
  apply Qcle_antisym; [done | by apply Qcnot_lt_le].
Qed.

Lemma py_max_l (a b : Qc) : (b ≤ a)%Qc → py_max a b = a.
Proof.
  intros H. unfold py_max. case_decide as Hlt; [|done].
  by apply Qcle_not_lt in H.
Qed.

Lemma Qcpower_le_1 (d : Qc) (n : nat) :
  (0 ≤ d)%Qc → (d ≤ 1)%Qc → (0 ≤ d ^ n)%Qc ∧ (d ^ n ≤ 1)%Qc.
Proof.
  intros H0 H1. induction n as [|n [IH0 IH1]]; simpl.
  - split; [done|]. apply Qcle_refl.
  - split; [by apply Qcmult_nonneg_nonneg|].
    trans (1 * d ^ n)%Qc; [by apply Qcmult_le_mono_nonneg_r|].
    by rewrite Qcmult_1_l.
Qed.

(** [max(max(a, f) * D, f) = max(a * D, f)] for [0 <= D <= 1] and
    [0 <= f]. *)
Lemma py_max_scale (a f D : Qc) :
  (0 ≤ f)%Qc → (0 ≤ D)%Qc → (D ≤ 1)%Qc →
  py_max (py_max a f * D) f = py_max (a * D) f.
Proof.
  intros Hf HD0 HD1.
  assert (HfD : (f * D ≤ f)%Qc).
  { trans (f * 1)%Qc; [by apply Qcmult_le_mono_nonneg_l|]. by rewrite Qcmult_1_r. }
  destruct (decide (a < f)%Qc) as [Haf|Haf].
  - rewrite (py_max_r a f) by by apply Qclt_le_weak.
    rewrite (py_max_r (f * D) f) by done. symmetry. apply py_max_r.
    trans (f * D)%Qc; [|done]. apply Qcmult_le_mono_nonneg_r; [done|].
    by apply Qclt_le_weak.
  - by rewrite (py_max_l a f) by by apply Qcnot_lt_le.
Qed.

(** ** The alpha scheduler, in closed form *)

Lemma times_alpha_closed (n : nat) (σ : world) :
  (0 ≤ alpha_decay (self σ))%Qc → (alpha_decay (self σ) ≤ 1)%Qc →
  ∃ σ', times (S n) _alpha_scheduler σ = Returns tt σ'
    ∧ alpha_decay (self σ') = alpha_decay (self σ)
    ∧ alpha (self σ')
        = py_max (alpha (self σ) * alpha_decay (self σ) ^ S n) (Q2Qc 0.0001).
Proof.
  revert σ. induction n as [|n IH]; intros σ H0 H1.
  - eexists. split; [reflexivity|]. simpl. by rewrite Qcmult_1_r.
  - set (σ1 := with_self (set_alpha (next_alpha σ)) σ).
    destruct (IH σ1) as (σ' & Hrun & Hd & Ha); [done..|].
    exists σ'. split_and!; [|done|].
    + change (times (S (S n)) _alpha_scheduler σ)
        with (times (S n) _alpha_scheduler σ1). exact Hrun.
    + rewrite Ha. simpl alpha. simpl alpha_decay. unfold next_alpha.
      destruct (Qcpower_le_1 (alpha_decay (self σ)) (S n) H0 H1) as [Hp0 Hp1].
      rewrite py_max_scale; [|done..]. f_equal. simpl. ring.
Qed.

(** X6. For a decay factor in [0, 1], [n >= 1] calls of the alpha
    scheduler return with [alpha] equal to the larger of
    [alpha * alpha_decay^n] and [0.0001] and leave [alpha_decay] as it was;
    and an [alpha] that starts at or above [0.0001] never grows. *)
Theorem alpha_closed_form (σ : world) (n : nat) :
  (0 ≤ alpha_decay (self σ))%Qc → (alpha_decay (self σ) ≤ 1)%Qc →
  (1 ≤ n)%nat →
  ∃ σ', times n _alpha_scheduler σ = Returns tt σ'
    ∧ alpha_decay (self σ') = alpha_decay (self σ)
    ∧ alpha (self σ')
        = py_max (alpha (self σ) * alpha_decay (self σ) ^ n) (Q2Qc 0.0001)
    ∧ ((Q2Qc 0.0001 ≤ alpha (self σ))%Qc →
       (alpha (self σ') ≤ alpha (self σ))%Qc).
Proof.
  intros H0 H1 Hn. destruct n as [|n]; [lia|].
  destruct (times_alpha_closed n σ H0 H1) as (σ' & Hrun & Hd & Ha).
  exists σ'. split_and!; [done..|]. intros Hfloor. rewrite Ha.
  apply py_max_le; [|done].
  destruct (Qcpower_le_1 (alpha_decay (self σ)) (S n) H0 H1) as [Hp0 Hp1].
  trans (alpha (self σ) * 1)%Qc; [|by rewrite Qcmult_1_r].
  apply Qcmult_le_mono_nonneg_l; [|done]. by trans (Q2Qc 0.0001).
Qed.

Lemma alpha_closed_form_witness :
  ∃ σ', times 3 _alpha_scheduler example_start = Returns tt σ'
    ∧ alpha_decay (self σ') = Q2Qc 0.9
    ∧ alpha (self σ') = py_max (Q2Qc 0.5 * Q2Qc 0.9 ^ 3) (Q2Qc 0.0001)
    ∧ ((Q2Qc 0.0001 ≤ Q2Qc 0.5)%Qc → (alpha (self σ') ≤ Q2Qc 0.5)%Qc).
Proof. apply (alpha_closed_form example_start 3); [done | done | lia]. Defined.

(** ** Loading a task, in integer arithmetic *)

Lemma py_ceil_capacity_div (s : Z) :
  py_ceil (Qc_of_Z 30 + Qc_of_Z s / Qc_of_Z 5)%Qc = 30 + (s + 4) `div` 5.
Proof.
  unfold py_ceil. rewrite (Qceiling_comp _ _ (capacity_formula_Q s)).
  assert (Heq : (30 + inject_Z s / 5 == (150 + s) # 5)%Q).
  { unfold Qeq, Qdiv, Qplus, Qmult, Qinv, inject_Z. simpl. lia. }
  rewrite (Qceiling_comp _ _ Heq). unfold Qceiling, Qfloor, Qopp. simpl.
  pose proof (Z.div_mod (- (150 + s)) 5) as H1.
  pose proof (Z.mod_pos_bound (- (150 + s)) 5) as H2.
  pose proof (Z.div_mod (s + 4) 5) as H3.
  pose proof (Z.mod_pos_bound (s + 4) 5) as H4.
  lia.
Qed.

Lemma derived_capacity_mono (s1 s2 : Z) :
  s1 ≤ s2 → derived_capacity s1 ≤ derived_capacity s2.
Proof.
  intros H. unfold derived_capacity.
  pose proof (Z.div_le_mono (s1 + 4) (s2 + 4) 5).
  pose proof (Z.div_pos (s2 + 4) 5).
  repeat case_decide; lia.
Qed.

(** X7. The capacity that [_load_task] sets for a task of size [s] is
    [30 + (s + 4) div 5] when [s >= 20] and [20] otherwise; it is never
    below [20], is at least [34] from size [20] on, and never decreases
    when the size grows. *)
Theorem load_task_capacity_integer (task_idx : Z) (σ : world) sel ws
    (s : Z) (x : Qc) (c0 : Z) :
  selected_tasks (self σ) = Some sel → w (self σ) = Some ws →
  py_getitem sel task_idx = Ok (Task s) → py_getitem ws task_idx = Ok x →
  capacity (env_generator (module σ)) = Some c0 →
  ∃ σ', _load_task task_idx σ = Returns tt σ'
    ∧ capacity (env_generator (module σ')) = Some (derived_capacity s)
    ∧ 20 ≤ derived_capacity s
    ∧ (20 ≤ s → 34 ≤ derived_capacity s)
    ∧ ∀ s', s ≤ s' → derived_capacity s ≤ derived_capacity s'.
Proof.
  intros Hsel Hw Ht Hx Hc. eexists.
  split; [by eapply _load_task_run|]. simpl. rewrite Hc.
  split_and!.
  - unfold derived_capacity. by rewrite py_ceil_capacity_div.
  - unfold derived_capacity. pose proof (Z.div_pos (s + 4) 5).
    case_decide; lia.
  - intros Hs. unfold derived_capacity. rewrite decide_True by done.
    pose proof (Z.div_le_mono 24 (s + 4) 5). change (24 `div` 5) with 4 in *. lia.
  - intros s'. apply derived_capacity_mono.
Qed.

Lemma load_task_capacity_integer_witness :
  ∃ σ', _load_task 0 (example_end3 ∅ ∅ ∅ ∅ ∅) = Returns tt σ'
    ∧ capacity (env_generator (module σ')) = Some (derived_capacity 50)
    ∧ 20 ≤ derived_capacity 50
    ∧ (20 ≤ 50 → 34 ≤ derived_capacity 50)
    ∧ ∀ s', 50 ≤ s' → derived_capacity 50 ≤ derived_capacity s'.
Proof.
  apply (load_task_capacity_integer 0 (example_end3 ∅ ∅ ∅ ∅ ∅)
           [Task 50; Task 4; Task 3; Task 5]
           [Q2Qc 0.25; Q2Qc 0.25; Q2Qc 0.25; Q2Qc 0.25] 50 (Q2Qc 0.25) 20);
    reflexivity.
Defined.

(** ** What the methods leave alone *)

Lemma keeps_saved_refl (σ : world) : keeps_saved σ σ.
Proof. by repeat split. Qed.

Lemma keeps_saved_trans (σ1 σ2 σ3 : world) :
  keeps_saved σ1 σ2 → keeps_saved σ2 σ3 → keeps_saved σ1 σ3.
Proof. unfold keeps_saved. intros H1 H2. destruct_and!. split_and!; congruence. Qed.

Lemma load_task_final (task_idx : Z) (σ : world) :
  match _load_task task_idx σ with
  | Returns _ σ' =>
      self σ' = self σ ∧ params (module σ') = params (module σ)
      ∧ trn σ' = trn σ ∧ draws σ' = draws σ
      ∧ is_Some (selected_tasks (self σ))
      ∧ (capacity (env_generator (module σ)) = None →
         capacity (env_generator (module σ')) = None)
  | Raises e σ' => σ' = σ ∧ (e = AttributeError ∨ e = IndexError)
  end.
Proof.
  unfold _load_task. mrun.
  destruct (selected_tasks (self σ)) as [sel|]; simpl; [|by eauto].
  assert (Hget : ∀ A (l : list A) i e, py_getitem l i = Error e → e = IndexError).
  { intros A l i e. unfold py_getitem. repeat case_match; congruence. }
  destruct (py_getitem sel task_idx) eqn:H1; simpl;
    [|split; [done|]; right; by eapply Hget].
  destruct (w (self σ)) as [ws|]; simpl; [|by eauto].
  destruct (py_getitem ws task_idx) eqn:H2; simpl;
    [|split; [done|]; right; by eapply Hget].
  destruct (capacity (env_generator (module σ))) eqn:Hc; simpl;
    split_and!; try done; by eexists.
Qed.

(** X8. [_load_task] writes to the generator only: when it returns, the
    callback, the module's parameters and the trainer are as before and a
    generator without [capacity] still has none; when it raises, which it
    does only with [AttributeError] or [IndexError], nothing has
    changed. *)
Theorem load_task_frame (task_idx : Z) (σ : world) :
  (∀ σ', _load_task task_idx σ = Returns tt σ' →
     self σ' = self σ ∧ params (module σ') = params (module σ)
     ∧ trn σ' = trn σ ∧ draws σ' = draws σ
     ∧ (capacity (env_generator (module σ)) = None →
        capacity (env_generator (module σ')) = None))
  ∧ (∀ e σ', _load_task task_idx σ = Raises e σ' →
       σ' = σ ∧ (e = AttributeError ∨ e = IndexError)).
Proof.
  pose proof (load_task_final task_idx σ) as H. split.
  - intros σ' Hr. rewrite Hr in H. destruct H as (? & ? & ? & ? & _ & ?).
    by split_and!.
  - intros e σ' Hr. by rewrite Hr in H.
Qed.

Lemma load_task_frame_witness :
  let σ := example_end3 ∅ ∅ ∅ ∅ ∅ in
  _load_task 7 σ = Raises IndexError σ
  ∧ (IndexError = AttributeError ∨ IndexError = IndexError).
Proof.
  intros σ. split; [reflexivity|].
  by destruct (proj2 (load_task_frame 7 σ) IndexError σ eq_refl).
Defined.

Section Frames.
Variable rand : nat → nat.
Variable exp : Qc → Qc.

Lemma load_state_dict_final (sd : state_dict) (σ : world) :
  self (final (load_state_dict sd σ)) = self σ
  ∧ trn (final (load_state_dict sd σ)) = trn σ
  ∧ env_generator (module (final (load_state_dict sd σ)))
      = env_generator (module σ).
Proof.
  unfold load_state_dict. mrun. by case_decide.
Qed.

Lemma sample_body_final (b : Z) (σ : world) :
  keeps_saved σ (final (_sample_task_body rand b σ))
  ∧ module (final (_sample_task_body rand b σ)) = module σ.
Proof.
  unfold _sample_task_body, random_sample1. mrun.
  destruct (task_set (self σ) !! _) as [t|]; simpl;
    [|split; [apply keeps_saved_refl | done]].
  destruct (selected_tasks (self σ)); simpl; by repeat split.
Qed.

Lemma sample_loop_final (l : list Z) (σ : world) :
  keeps_saved σ (final (for_ l (_sample_task_body rand) σ))
  ∧ module (final (for_ l (_sample_task_body rand) σ)) = module σ.
Proof.
  revert σ. induction l as [|b l IH]; intros σ.
  - split; [apply keeps_saved_refl | done].
  - simpl. unfold mbind, M_bind, bind.
    pose proof (sample_body_final b σ) as [Hk Hm].
    destruct (_sample_task_body rand b σ) as [[] σ1|e σ1]; simpl in *; [|done].
    destruct (IH σ1) as [Hk' Hm']. split; [by eapply keeps_saved_trans | congruence].
Qed.

Lemma sample_task_final (σ : world) :
  keeps_saved σ (final (_sample_task rand exp σ))
  ∧ module (final (_sample_task rand exp σ)) = module σ.
Proof.
  unfold _sample_task. mrun.
  pose proof (sample_loop_final (py_range 0 (num_tasks (self σ)))
                (with_self (set_selected_tasks []) σ)) as [Hk Hm].
  destruct (for_ _ _ _) as [[] σ1|e σ1]; simpl in *.
  - split; [|done]. unfold keeps_saved in *. simpl. done.
  - done.
Qed.

Lemma on_train_epoch_end_final (σ : world) (tm : list state_dict) :
  task_models (self σ) = Some tm →
  keeps_saved (appended σ tm) (final (on_train_epoch_end rand exp σ)).
Proof.
  intros Htm. unfold on_train_epoch_end. mrun. rewrite Htm. simpl.
  fold (appended σ tm). set (σ0 := appended σ tm).
  case_decide as Hn; simpl; [apply keeps_saved_refl|].
  assert (Hload : ∀ σ1, keeps_saved σ0 σ1 →
            keeps_saved σ0 (final (_load_task
              ((current_epoch (trn σ) + 1) `mod` num_tasks (self σ)) σ1))).
  { intros σ1 H1. pose proof (load_task_final
      ((current_epoch (trn σ) + 1) `mod` num_tasks (self σ)) σ1) as H.
    destruct (_load_task _ σ1) as [[] σ2|e σ2]; simpl.
    - destruct H as (Hs & _ & Ht & _). unfold keeps_saved in *.
      rewrite Hs, Ht. done.
    - by destruct H as [-> _]. }
  destruct (bool_decide _) eqn:Hb; simpl.
  - destruct (meta_model_state_dict (self σ)) as [meta|]; simpl;
      [|apply keeps_saved_refl].
    destruct (outer_state_dict _ _ _) as [new_sd|]; simpl;
      [|apply keeps_saved_refl].
    pose proof (load_state_dict_final new_sd σ0) as (Hs1 & Ht1 & _).
    destruct (load_state_dict new_sd σ0) as [[] σ1|e σ1]; simpl in *.
    + assert (H1 : keeps_saved σ0 σ1).
      { unfold keeps_saved. rewrite Hs1, Ht1. by repeat split. }
      pose proof (sample_task_final σ1) as [Hk2 _].
      destruct (_sample_task rand exp σ1) as [[] σ2|e σ2]; simpl in *.
      * apply Hload. by eapply keeps_saved_trans.
      * by eapply keeps_saved_trans.
    + unfold keeps_saved. rewrite Hs1, Ht1. by repeat split.
  - by apply Hload, keeps_saved_refl.
Qed.

Lemma on_train_epoch_end_Returns_selected (σ σ' : world) :
  on_train_epoch_end rand exp σ = Returns tt σ' →
  is_Some (selected_tasks (self σ')) ∧ num_tasks (self σ) ≠ 0.
Proof.
  assert (Hload : ∀ i σ1, _load_task i σ1 = Returns tt σ' →
            is_Some (selected_tasks (self σ'))).
  { intros i σ1 Hr. pose proof (load_task_final i σ1) as H. rewrite Hr in H.
    destruct H as (-> & _ & _ & _ & H & _). exact H. }
  unfold on_train_epoch_end. mrun.
  destruct (task_models (self σ)) as [tm|]; simpl; [|done].
  case_decide as Hn; simpl; [done|].
  destruct (bool_decide _); simpl; [|by eauto].
  destruct (meta_model_state_dict (self σ)) as [meta|]; simpl; [|done].
  destruct (outer_state_dict _ _ _) as [new_sd|]; simpl; [|done].
  destruct (load_state_dict new_sd _) as [[] σ1|]; [|done].
  destruct (_sample_task _ _ _) as [[] σ2|]; [|done]. by eauto.
Qed.

End Frames.

(** X9. However [on_train_epoch_end] ends, by returning or by raising, once
    [task_models] exists the snapshot of the epoch has been appended to
    it, and the saved meta model, [alpha], the configuration of the
    callback and the trainer are as they were: the outer-loop update
    changes the module only, never the saved meta model. *)
Theorem epoch_end_keeps_meta_model (rand : nat → nat) (exp : Qc → Qc)
    (σ : world) (tm : list state_dict) :
  task_models (self σ) = Some tm →
  let σ' := final (on_train_epoch_end rand exp σ) in
  task_models (self σ') = Some (tm ++ [params (module σ)])
  ∧ meta_model_state_dict (self σ') = meta_model_state_dict (self σ)
  ∧ alpha (self σ') = alpha (self σ)
  ∧ alpha_decay (self σ') = alpha_decay (self σ)
  ∧ num_tasks (self σ') = num_tasks (self σ)
  ∧ task_set (self σ') = task_set (self σ)
  ∧ trn σ' = trn σ.
Proof.
  intros Htm σ'.
  destruct (on_train_epoch_end_final rand exp σ tm Htm)
    as (Hn & Ha & Hd & _ & _ & Hts & Hm & Htm' & Ht).
  by split_and!.
Qed.

Lemma epoch_end_keeps_meta_model_witness :
  let meta := example_params 1 2 10 in
  let σ := example_end3 meta (example_params 3 2 10) (example_params 1 6 10)
             (example_params 1 2 14) (example_params 5 2 10) in
  let σ' := final (on_train_epoch_end rand_model exp_model σ) in
  task_models (self σ')
    = Some ([example_params 3 2 10; example_params 1 6 10; example_params 1 2 14]
              ++ [example_params 5 2 10])
  ∧ meta_model_state_dict (self σ') = Some meta
  ∧ alpha (self σ') = Q2Qc 0.5
  ∧ alpha_decay (self σ') = Q2Qc 0.9
  ∧ num_tasks (self σ') = 4
  ∧ task_set (self σ') = [Task 3; Task 4; Task 5]
  ∧ trn σ' = Trainer 3 8 (Q2Qc 0.001).
Proof.
  intros meta σ.
  apply (epoch_end_keeps_meta_model rand_model exp_model σ
           [example_params 3 2 10; example_params 1 6 10; example_params 1 2 14]).
  reflexivity.
Defined.

(** X10. The meta model of the next meta-epoch is what the outer-loop
    update left in the module: when [on_train_epoch_end] returns at an
    epoch [e] with [(e+1) mod num_tasks = 0], the [on_train_epoch_start]
    of epoch [e+1] returns, saves as meta model the state dict the outer
    loop computed from the old meta model and the snapshots, converted
    to the dtypes of the module (the entries of an [int64] tensor
    truncated towards zero), clears [task_models], and leaves that
    converted state dict in the module. *)
Theorem meta_epoch_handover (rand : nat → nat) (exp : Qc → Qc)
    (σ σ' σ1 : world) :
  (current_epoch (trn σ) + 1) `mod` num_tasks (self σ) = 0 →
  on_train_epoch_end rand exp σ = Returns tt σ' →
  self σ1 = self σ' → module σ1 = module σ' →
  current_epoch (trn σ1) = current_epoch (trn σ) + 1 →
  ∃ σ2 meta tm new_sd,
    meta_model_state_dict (self σ) = Some meta
    ∧ task_models (self σ) = Some tm
    ∧ outer_state_dict (alpha (self σ)) meta (tm ++ [params (module σ)])
        = Ok new_sd
    ∧ on_train_epoch_start σ1 = Returns tt σ2
    ∧ meta_model_state_dict (self σ2) = Some (to_dtypes (module σ) new_sd)
    ∧ task_models (self σ2) = Some []
    ∧ params (module σ2) = to_dtypes (module σ) new_sd
    ∧ ∀ k v, new_sd !! k = Some v →
        params (module σ2) !! k
        = Some (match dtype_of (module σ) k with
                | float32 => v
                | int64 => (λ x, Qc_of_Z (py_int x)) <$> v
                end).
Proof.
  intros He Hrun Hs Hm He1.
  destruct (on_train_epoch_end_outer_Returns rand exp σ σ' He Hrun)
    as (meta & tm & new_sd & Hmeta & Htm & Hsd & _ & Hp & _).
  pose proof (on_train_epoch_end_final rand exp σ tm Htm) as Hk.
  rewrite Hrun in Hk. simpl in Hk. destruct Hk as (Hn & _).
  destruct (on_train_epoch_end_Returns_selected rand exp σ σ' Hrun) as [Hsel Hn0].
  eexists _, meta, tm, new_sd. split_and!; [done..| | | | |].
  - apply on_train_epoch_start_snapshot.
    + rewrite Hs, Hn. done.
    + rewrite Hs, Hn, He1. done.
    + intros _. by rewrite Hs.
  - simpl. by rewrite Hm, Hp.
  - done.
  - simpl. by rewrite Hm.
  - intros k v Hk. simpl. rewrite Hm, Hp, to_dtypes_lookup, Hk. simpl.
    by destruct (dtype_of (module σ) k).
Qed.

Lemma meta_epoch_handover_witness :
  let σ := example_tracked_end3 (example_tracked 10 10)
             (example_tracked 12 12) (example_tracked 12 12)
             (example_tracked 16 16) (example_tracked 20 20) in
  let σ1 := with_trainer next_epoch
              (final (on_train_epoch_end rand_model exp_model σ)) in
  ∃ σ2 meta tm new_sd,
    meta_model_state_dict (self σ) = Some meta
    ∧ task_models (self σ) = Some tm
    ∧ outer_state_dict (alpha (self σ)) meta (tm ++ [params (module σ)])
        = Ok new_sd
    ∧ on_train_epoch_start σ1 = Returns tt σ2
    ∧ meta_model_state_dict (self σ2) = Some (to_dtypes (module σ) new_sd)
    ∧ task_models (self σ2) = Some []
    ∧ params (module σ2) = to_dtypes (module σ) new_sd
    ∧ ∀ k v, new_sd !! k = Some v →
        params (module σ2) !! k
        = Some (match dtype_of (module σ) k with
                | float32 => v
                | int64 => (λ x, Qc_of_Z (py_int x)) <$> v
                end).
Proof.
  intros σ σ1.
  apply (meta_epoch_handover rand_model exp_model σ
           (final (on_train_epoch_end rand_model exp_model σ)) σ1);
    vm_compute; reflexivity.
Defined.

(** ** The outer-loop update as an average *)

Lemma qsum_shift (xs : list Qc) (c : Qc) :
  Tensor.qsum ((λ x, x - c)%Qc <$> xs)
    = (Tensor.qsum xs - Qc_of_Z (Z.of_nat (length xs)) * c)%Qc.
Proof.
  induction xs as [|x xs IH].
  - change (0 = 0 - Qc_of_Z 0 * c)%Qc. rewrite Z2Qc_inj_0. ring.
  - rewrite fmap_cons.
    change ((x - c) + Tensor.qsum ((λ x, x - c) <$> xs)
            = (x + Tensor.qsum xs) - Qc_of_Z (Z.of_nat (S (length xs))) * c)%Qc.
    rewrite IH, Nat2Z.inj_succ, <-Z.add_1_r, Z2Qc_inj_add, Z2Qc_inj_1. ring.
Qed.

Lemma qsum_Permutation (xs ys : list Qc) :
  xs ≡ₚ ys → Tensor.qsum xs = Tensor.qsum ys.
Proof.
  induction 1 as [|x xs ys _ IH|x y xs|xs ys zs _ IH1 _ IH2]; unfold Tensor.qsum in *;
    simpl; [done | by rewrite IH | ring | congruence].
Qed.

Lemma Qc_of_nat_ne_0 (n : nat) : n ≠ 0%nat → Qc_of_Z (Z.of_nat n) ≠ 0%Qc.
Proof. intros Hn. rewrite <-Z2Qc_inj_0. intros ?%Z2Qc_inj. lia. Qed.

(** X11. The state dict of the outer-loop update is, entry by entry, the
    interpolation [(1 - alpha) * meta + alpha * average of the snapshots];
    with [alpha = 0] it is the meta model itself. *)
Theorem outer_update_interpolation (a : Qc) (meta : state_dict)
    (snaps : list state_dict) (new : state_dict) :
  outer_state_dict a meta snaps = Ok new →
  (∀ k m, meta !! k = Some m →
     ∃ v, new !! k = Some v ∧ length v = length m
       ∧ ∀ i mi, m !! i = Some mi →
           ∃ xs, Forall2 (λ fw x, entry fw k i = Some x) snaps xs
             ∧ v !! i = Some ((1 - a) * mi
                              + a * (Tensor.qsum xs
                                     / Qc_of_Z (Z.of_nat (length snaps))))%Qc)
  ∧ (a = 0%Qc → new = meta).
Proof.
  intros Hsd. pose proof Hsd as [Hdom Hent]%outer_state_dict_Ok.
  assert (Hne : ∀ k m, meta !! k = Some m → snaps ≠ []).
  { intros k m Hk. apply dict_comp_Ok in Hsd as [_ Hall].
    destruct (Hall k m Hk) as (v & Hv & _). simpl in Hv.
    by apply outer_entry_Ok in Hv as (_ & _ & ? & _). }
  assert (Hform : ∀ k m, meta !! k = Some m →
     ∃ v, new !! k = Some v ∧ length v = length m
       ∧ ∀ i mi, m !! i = Some mi →
           ∃ xs, Forall2 (λ fw x, entry fw k i = Some x) snaps xs
             ∧ v !! i = Some ((1 - a) * mi
                              + a * (Tensor.qsum xs
                                     / Qc_of_Z (Z.of_nat (length snaps))))%Qc).
  { intros k m Hm. destruct (Hent k m Hm) as (v & Hv & Hlen & Hi).
    exists v. split_and!; [done..|]. intros i mi Hmi.
    destruct (Hi i mi Hmi) as (xs & Hxs & ->). exists xs. split; [done|].
    f_equal. rewrite qsum_shift, <-(Forall2_length _ _ _ Hxs).
    field. apply Qc_of_nat_ne_0. specialize (Hne k m Hm). by destruct snaps. }
  split; [exact Hform|]. intros ->. apply map_eq. intros k.
  destruct (meta !! k) as [m|] eqn:Hm.
  - destruct (Hform k m Hm) as (v & -> & Hlen & Hi). f_equal.
    apply list_eq. intros i. destruct (m !! i) as [mi|] eqn:Hmi.
    + destruct (Hi i mi Hmi) as (xs & _ & ->). f_equal. unfold Qcdiv. ring.
    + apply lookup_ge_None. rewrite Hlen. by apply lookup_ge_None.
  - apply not_elem_of_dom. rewrite Hdom. by apply not_elem_of_dom.
Qed.

Lemma outer_update_interpolation_witness :
  let meta := example_params 1 2 10 in
  let snaps := [example_params 3 2 10; example_params 5 2 10] in
  ok_or ∅ (outer_state_dict 0%Qc meta snaps) = meta.
Proof.
  intros meta snaps.
  refine (proj2 (outer_update_interpolation 0%Qc meta snaps
                   (ok_or ∅ (outer_state_dict 0%Qc meta snaps)) _) eq_refl).
  vm_compute; reflexivity.
Defined.

(** ** Which entries of the snapshots the update reads *)

Lemma traverse_ext_in {A B} (f g : A → result B) (l : list A) :
  (∀ x, x ∈ l → f x = g x) → traverse f l = traverse g l.
Proof.
  induction l as [|x l IH]; intros H; [done|]. simpl.
  rewrite (H x) by by left. rewrite IH; [done|]. intros y Hy. apply H. by right.
Qed.

Lemma traverse_Forall2 {A B} (f : A → result B) (l l' : list A) :
  Forall2 (λ x y, f x = f y) l l' → traverse f l = traverse f l'.
Proof. induction 1 as [|x y l l' H _ IH]; [done|]. simpl. by rewrite H, IH. Qed.

(** X12. The outer-loop update reads the snapshots under the keys of the
    meta model only: two lists of snapshots that agree under those keys
    give the same result, state dict or exception. A key that only the
    snapshots have is dropped without an error. *)
Theorem outer_update_reads_meta_keys (a : Qc) (meta : state_dict)
    (snaps snaps' : list state_dict) :
  Forall2 (λ fw fw' : state_dict,
             ∀ k, is_Some (meta !! k) → fw !! k = fw' !! k) snaps snaps' →
  outer_state_dict a meta snaps = outer_state_dict a meta snaps'.
Proof.
  intros Hagree. unfold outer_state_dict, dict_comp. f_equal.
  apply traverse_ext_in. intros [k m] Hin%elem_of_map_to_list. simpl.
  unfold outer_entry.
  rewrite (traverse_Forall2 (task_delta meta k) snaps snaps'); [done|].
  eapply Forall2_impl; [exact Hagree|]. intros fw fw' H. simpl in H.
  unfold task_delta, dict_getitem. by rewrite (H k) by by eexists.
Qed.

Lemma outer_update_reads_meta_keys_witness :
  let meta : state_dict := <["layer.bias" := [Qc_of_Z 10]]> ∅ in
  outer_state_dict (Q2Qc 0.5) meta [example_params 3 2 12]
    = outer_state_dict (Q2Qc 0.5) meta [<["layer.bias" := [Qc_of_Z 12]]> ∅].
Proof.
  intros meta. apply outer_update_reads_meta_keys.
  repeat constructor. intros k [m Hm]. unfold meta in Hm.
  apply lookup_insert_Some in Hm as [[<- _]|[_ Hm]]; [done|].
  by rewrite lookup_empty in Hm.
Defined.

(** ** The order of the snapshots *)

Lemma entries_fmap (k : string) (i : nat) (snaps : list state_dict) (xs : list Qc) :
  Forall2 (λ fw x, entry fw k i = Some x) snaps xs →
  xs = (λ fw, default 0%Qc (entry fw k i)) <$> snaps.
Proof. induction 1 as [|fw x ? ? H _ IH]; [done|]. simpl. by rewrite H, IH. Qed.

Lemma outer_entry_Permutation (a : Qc) (meta : state_dict)
    (snaps snaps' : list state_dict) (k : string) (v : tensor) :
  snaps ≡ₚ snaps' →
  outer_entry a meta snaps k = Ok v → outer_entry a meta snaps' k = Ok v.
Proof.
  intros Hperm Hv.
  pose proof Hv as (m & Hm & Hne & Hlen & Hall & Hent)%outer_entry_Ok.
  destruct (outer_entry_total a meta snaps' k m Hm) as [v' Hv'].
  { intros ->. by apply Permutation_nil_r in Hperm. }
  { by rewrite <-Hperm. }
  rewrite Hv'. f_equal.
  apply outer_entry_Ok in Hv' as (m' & Hm' & _ & Hlen' & _ & Hent').
  assert (m' = m) as -> by congruence.
  apply list_eq. intros i. destruct (m !! i) as [mi|] eqn:Hmi.
  - destruct (Hent i mi Hmi) as (xs & Hxs & ->).
    destruct (Hent' i mi Hmi) as (xs' & Hxs' & ->).
    apply entries_fmap in Hxs as ->. apply entries_fmap in Hxs' as ->.
    rewrite (Permutation_length Hperm). do 4 f_equal.
    apply qsum_Permutation. by rewrite Hperm.
  - rewrite (proj2 (lookup_ge_None v' i)), (proj2 (lookup_ge_None v i)); [done|..].
    + rewrite Hlen. by apply lookup_ge_None.
    + rewrite Hlen'. by apply lookup_ge_None.
Qed.

(** X13. The outer-loop update does not depend on the order of the
    snapshots: if it yields a state dict for a list of snapshots, it
    yields the same state dict for every permutation of that list. *)
Theorem outer_update_order (a : Qc) (meta : state_dict)
    (snaps snaps' : list state_dict) (new : state_dict) :
  snaps ≡ₚ snaps' →
  outer_state_dict a meta snaps = Ok new →
  outer_state_dict a meta snaps' = Ok new.
Proof.
  intros Hperm [Hdom Hall]%dict_comp_Ok. apply dict_comp_Ok. split; [done|].
  intros k m Hm. destruct (Hall k m Hm) as (v & Hv & Hk). simpl in Hv.
  exists v. split; [|done]. simpl. by eapply outer_entry_Permutation.
Qed.

Lemma outer_update_order_witness :
  let meta := example_params 1 2 10 in
  let snaps := [example_params 3 2 10; example_params 5 2 10] in
  outer_state_dict (Q2Qc 0.5) meta [example_params 5 2 10; example_params 3 2 10]
    = Ok (ok_or ∅ (outer_state_dict (Q2Qc 0.5) meta snaps)).
Proof.
  intros meta snaps.
  apply (outer_update_order (Q2Qc 0.5) meta snaps
           [example_params 5 2 10; example_params 3 2 10]);
    [apply perm_swap | vm_compute; reflexivity].
Defined.

(** * Further properties of the JSSP environment *)

Lemma all_false_iff (ms : list bool) :
  JSSP.all ms = false ↔ ∃ m, ms !! m = Some false.
Proof.
  unfold JSSP.all. induction ms as [|x ms IH]; simpl.
  - split; [done | by intros [m ?]].
  - destruct x; simpl.
    + rewrite IH. split; [intros [m ?]; by exists (S m)|].
      intros [[|m] Hm]; [done | by exists m].
    + split; [by exists 0%nat | done].
Qed.

Lemma any_true_iff (ms : list bool) :
  JSSP.any ms = true ↔ ∃ m, ms !! m = Some true.
Proof.
  unfold JSSP.any. induction ms as [|x ms IH]; simpl.
  - split; [done | by intros [m ?]].
  - destruct x; simpl.
    + split; [by exists 0%nat | done].
    + rewrite IH. split; [intros [m ?]; by exists (S m)|].
      intros [[|m] Hm]; [done | by exists m].
Qed.

Lemma get_action_mask_row avail (mask_no_ops : bool) (td : TensorDict)
    (b : nat) (i : instance) (jobs : list (list bool)) :
  length (avail td) = length td → td !! b = Some i →
  avail td !! b = Some jobs →
  ∃ row, get_action_mask avail mask_no_ops td !! b = Some row
    ∧ length row = S (length jobs)
    ∧ row !! 0%nat = Some (if mask_no_ops then done_ i
                           else JSSP.any (job_in_process i) || done_ i)
    ∧ ∀ j, row !! S j = Some true
           ↔ ∃ ms m, jobs !! j = Some ms ∧ ms !! m = Some false.
Proof.
  intros Hlen Hb Hjobs.
  destruct (get_action_mask_lookup avail mask_no_ops td b i Hlen Hb)
    as (jobs' & Hjobs' & Hrow).
  assert (jobs' = jobs) as -> by congruence.
  eexists. split; [exact Hrow|].
  split; [by rewrite length_cons, length_fmap|]. split; [done|].
  intros j. simpl. rewrite list_lookup_fmap. split.
  - destruct (jobs !! j) as [ms|]; simpl; [|done].
    intros [= H%negb_true_iff]. apply all_false_iff in H as [m Hm]. eauto.
  - intros (ms & m & -> & Hm). simpl. f_equal. apply negb_true_iff.
    apply all_false_iff. eauto.
Qed.

(** X14. The mask has one row per batch entry; the row of an entry has one
    position for the no-op followed by one per job, and a job is feasible
    exactly when at least one of its machines is not masked (a job without
    machines never is). *)
Theorem action_mask_jobs avail (mask_no_ops : bool) (td : TensorDict)
    (b : nat) (i : instance) (jobs : list (list bool)) :
  length (avail td) = length td → td !! b = Some i →
  avail td !! b = Some jobs →
  length (get_action_mask avail mask_no_ops td) = length td
  ∧ ∃ row, get_action_mask avail mask_no_ops td !! b = Some row
      ∧ length row = S (length jobs)
      ∧ ∀ j, row !! S j = Some true
             ↔ ∃ ms m, jobs !! j = Some ms ∧ ms !! m = Some false.
Proof.
  intros Hlen Hb Hjobs. split.
  - unfold get_action_mask, invert. rewrite length_zip_with, !length_fmap.
    destruct mask_no_ops; rewrite length_fmap; lia.
  - destruct (get_action_mask_row avail mask_no_ops td b i jobs Hlen Hb Hjobs)
      as (row & ? & ? & _ & ?). eauto.
Qed.

Lemma action_mask_jobs_witness :
  length (get_action_mask spec_availability false [example_running]) = 1%nat
  ∧ ∃ row, get_action_mask spec_availability false [example_running] !! 0%nat
             = Some row
      ∧ length row = 3%nat
      ∧ ∀ j, row !! S j = Some true
             ↔ ∃ ms m, [[true; true]; [true; false]] !! j = Some ms
                       ∧ ms !! m = Some false.
Proof.
  apply (action_mask_jobs spec_availability false [example_running] 0
           example_running [[true; true]; [true; false]]); reflexivity.
Defined.

(** X15. Setting [mask_no_ops] only ever removes the no-op: the job
    positions of the mask are the same with and without it, a no-op that
    is feasible with [mask_no_ops] set is feasible without it, and in a
    finished instance the no-op is feasible either way. *)
Theorem mask_no_ops_modes avail (td : TensorDict) (b : nat) (i : instance) :
  length (avail td) = length td → td !! b = Some i →
  ∃ r1 r2, get_action_mask avail true td !! b = Some r1
    ∧ get_action_mask avail false td !! b = Some r2
    ∧ tail r1 = tail r2
    ∧ (r1 !! 0%nat = Some true → r2 !! 0%nat = Some true)
    ∧ (done_ i = true → r1 !! 0%nat = Some true).
Proof.
  intros Hlen Hb.
  destruct (get_action_mask_lookup avail true td b i Hlen Hb) as (jobs & Hj & H1).
  destruct (get_action_mask_lookup avail false td b i Hlen Hb) as (jobs' & Hj' & H2).
  assert (jobs' = jobs) as -> by congruence.
  eexists _, _. split_and!; [exact H1 | exact H2 | done | |].
  - simpl. intros [= ->]. by rewrite orb_true_r.
  - simpl. by intros ->.
Qed.

Lemma mask_no_ops_modes_witness :
  ∃ r1 r2, get_action_mask spec_availability true [example_finished] !! 0%nat
             = Some r1
    ∧ get_action_mask spec_availability false [example_finished] !! 0%nat
        = Some r2
    ∧ tail r1 = tail r2
    ∧ (r1 !! 0%nat = Some true → r2 !! 0%nat = Some true)
    ∧ (true = true → r1 !! 0%nat = Some true).
Proof.
  apply (mask_no_ops_modes spec_availability [example_finished] 0 example_finished);
    reflexivity.
Defined.

(** X16. A row of the mask offers a feasible action exactly when the
    instance is finished, or [mask_no_ops] is not set and some job is in
    process, or some job has a machine that is not masked. So with
    [mask_no_ops] set, an unfinished instance all of whose job-machine
    pairs are masked has no feasible action at all. *)
Theorem action_mask_feasible avail (mask_no_ops : bool) (td : TensorDict)
    (b : nat) (i : instance) (jobs : list (list bool)) :
  length (avail td) = length td → td !! b = Some i →
  avail td !! b = Some jobs →
  ∃ row, get_action_mask avail mask_no_ops td !! b = Some row
    ∧ ((∃ a, row !! a = Some true)
       ↔ done_ i = true
         ∨ (mask_no_ops = false ∧ ∃ j, job_in_process i !! j = Some true)
         ∨ ∃ j ms m, jobs !! j = Some ms ∧ ms !! m = Some false)
    ∧ (mask_no_ops = true → done_ i = false →
       Forall (λ ms, Forall (λ x, x = true) ms) jobs →
       Forall (λ x, x = false) row).
Proof.
  intros Hlen Hb Hjobs.
  destruct (get_action_mask_row avail mask_no_ops td b i jobs Hlen Hb Hjobs)
    as (row & Hrow & Hlrow & Hnoop & Hjob).
  assert (Hiff : (∃ a, row !! a = Some true)
       ↔ done_ i = true
         ∨ (mask_no_ops = false ∧ ∃ j, job_in_process i !! j = Some true)
         ∨ ∃ j ms m, jobs !! j = Some ms ∧ ms !! m = Some false).
  { split.
    - intros [[|j] Ha].
      + rewrite Hnoop in Ha. injection Ha as Ha. destruct mask_no_ops; [by left|].
        apply orb_true_iff in Ha as [Ha|Ha]; [|by left].
        right. left. split; [done|]. by apply any_true_iff.
      + right. right. exists j. by apply Hjob.
    - intros [Hd|[[-> Hp]|(j & Hj)]].
      + exists 0%nat. rewrite Hnoop, Hd. destruct mask_no_ops; [done|].
        by rewrite orb_true_r.
      + exists 0%nat. rewrite Hnoop. apply any_true_iff in Hp. by rewrite Hp.
      + exists (S j). by apply Hjob. }
  exists row. split_and!; [done | done |].
  intros -> Hd Hall. apply Forall_lookup. intros a x Hx.
  destruct x; [|done]. exfalso.
  destruct (proj1 Hiff (ex_intro _ a Hx)) as [Hd'|[[? _]|(j & ms & m & Hj & Hm)]];
    [congruence | done |].
  eapply Forall_lookup_1 in Hall; [|exact Hj].
  eapply Forall_lookup_1 in Hall; [|exact Hm]. done.
Qed.

Lemma action_mask_feasible_witness :
  let blocked := Instance false [false; false] [false; false] [0; 1]%nat
                   [[false; false]; [false; false]] [0%Qc; 0%Qc] in
  get_action_mask spec_availability true [blocked] !! 0%nat
    = Some [false; false; false].
Proof.
  intros blocked.
  destruct (action_mask_feasible spec_availability true [blocked] 0 blocked
              [[true; true]; [true; true]])
    as (row & Hrow & _ & Hall); [reflexivity..|].
  specialize (Hall eq_refl eq_refl ltac:(repeat constructor)).
  rewrite Hrow. f_equal.
  assert (Hl : length row = 3%nat).
  { vm_compute in Hrow. by injection Hrow as <-. }
  destruct row as [|x [|y [|z [|]]]]; try done.
  by inversion Hall as [|? ? -> H1]; inversion H1 as [|? ? -> H2];
     inversion H2 as [|? ? -> _].
Defined.

(** * Properties of the PyVRP baseline *)

Lemma solution2action_cons (r : PyVRP.Route) (rs : list PyVRP.Route) :
  PyVRP.solution2action (PyVRP.mkSolution (r :: rs))
    = PyVRP.visits r ++ 0 :: PyVRP.solution2action (PyVRP.mkSolution rs).
Proof. unfold PyVRP.solution2action. simpl. by rewrite <-app_assoc. Qed.

Lemma route_split (r r' t t' : list Z) :
  Forall (λ v, v ≠ 0) r → Forall (λ v, v ≠ 0) r' →
  r ++ 0 :: t = r' ++ 0 :: t' → r = r' ∧ t = t'.
Proof.
  intros Hr. revert r'. induction Hr as [|x r Hx _ IH]; intros r' Hr' Heq.
  - destruct Hr' as [|y r' Hy _]; simpl in Heq; [by injection Heq|].
    injection Heq as <- _. done.
  - destruct Hr' as [|y r' Hy Hr']; simpl in Heq.
    + injection Heq as -> _. done.
    + injection Heq as -> Heq. destruct (IH r' Hr' Heq) as [-> ->]. done.
Qed.

(** X17. The giant tour determines the solution: two solutions whose
    routes visit clients only and that give the same action have the
    same routes, empty routes included. *)
Theorem solution2action_injective (s s' : PyVRP.Solution) :
  PyVRP.clients_only s → PyVRP.clients_only s' →
  PyVRP.solution2action s = PyVRP.solution2action s' → s = s'.
Proof.
  destruct s as [rs], s' as [rs']. unfold PyVRP.clients_only. simpl.
  intros Hs. revert rs'. induction Hs as [|[r] rs Hr _ IH]; intros rs' Hs' Heq.
  - destruct Hs' as [|[r'] rs' _ _]; [done|].
    rewrite solution2action_cons in Heq. by destruct r'.
  - destruct Hs' as [|[r'] rs' Hr' Hs'].
    + rewrite solution2action_cons in Heq. by destruct r.
    + rewrite !solution2action_cons in Heq. simpl in *.
      destruct (route_split _ _ _ _ Hr Hr' Heq) as [-> Ht].
      specialize (IH rs' Hs' Ht). by injection IH as ->.
Qed.

Lemma solution2action_injective_witness :
  PyVRP.mkSolution
    [PyVRP.mkRoute [3; 1]; PyVRP.mkRoute []; PyVRP.mkRoute [2]]
  = PyVRP.example_solution.
Proof.
  apply solution2action_injective;
    [repeat constructor; done | repeat constructor; done | reflexivity].
Defined.

Lemma filter_clients (r : list Z) :
  Forall (λ v, v ≠ 0) r →
  filter (λ v, v ≠ 0) r = r ∧ filter (λ v, v = 0) r = [].
Proof.
  induction 1 as [|x r Hx _ [IH1 IH2]]; [done|].
  rewrite !filter_cons, decide_True, decide_False, IH1, IH2 by done. done.
Qed.

(** X18. The action lists the visits of the routes in order, each route
    followed by one 0: its length is the number of visits plus the
    number of routes, and for routes that visit clients only, dropping
    the zeros gives the visits of all routes and the zeros are as many
    as the routes. A solution without routes gives the empty action. *)
Theorem solution2action_tour (s : PyVRP.Solution) :
  PyVRP.clients_only s →
  let action := PyVRP.solution2action s in
  length action
    = (length (mjoin (PyVRP.visits <$> PyVRP.routes s))
       + length (PyVRP.routes s))%nat
  ∧ filter (λ v, v ≠ 0) action = mjoin (PyVRP.visits <$> PyVRP.routes s)
  ∧ length (filter (λ v, v = 0) action) = length (PyVRP.routes s)
  ∧ (PyVRP.routes s = [] ↔ action = []).
Proof.
  destruct s as [rs]. unfold PyVRP.clients_only. simpl.
  induction 1 as [|[r] rs Hr _ IH].
  - done.
  - rewrite solution2action_cons. simpl in *.
    destruct IH as (IH1 & IH2 & IH3 & _).
    destruct (filter_clients r Hr) as [Hf Hz].
    rewrite !filter_app, !filter_cons, Hf, Hz, IH2.
    rewrite decide_False by (intros H; by apply H).
    rewrite decide_True by done.
    rewrite !length_app. simpl. rewrite IH1, IH3.
    change (list_fmap _ _ PyVRP.visits rs) with (PyVRP.visits <$> rs).
    split_and!; [lia | done | done |].
    split; [done | by destruct r].
Qed.

Lemma solution2action_tour_witness :
  let action := PyVRP.solution2action PyVRP.example_solution in
  length action = (3 + 3)%nat
  ∧ filter (λ v, v ≠ 0) action = [3; 1; 2]
  ∧ length (filter (λ v, v = 0) action) = 3%nat
  ∧ (PyVRP.routes PyVRP.example_solution = [] ↔ action = []).
Proof.
  apply (solution2action_tour PyVRP.example_solution).
  repeat constructor; done.
Defined.

(** * Properties of the L2D policy *)

Lemma string_length_app (s t : string) :
  String.length (s +:+ t) = (String.length s + String.length t)%nat.
Proof.
  induction s as [|a s IH]; [done|].
  change (S (String.length (s +:+ t)) = S (String.length s + String.length t)).
  by rewrite IH.
Qed.

Lemma string_app_inj_r (t s1 s2 : string) :
  s1 +:+ t = s2 +:+ t → s1 = s2.
Proof.
  revert s2. induction s1 as [|a s1 IH]; intros [|b s2] H.
  - done.
  - apply (f_equal String.length) in H.
    change (String.length t = S (String.length (s2 +:+ t))) in H.
    rewrite string_length_app in H. lia.
  - apply (f_equal String.length) in H.
    change (S (String.length (s1 +:+ t)) = String.length t) in H.
    rewrite string_length_app in H. lia.
  - change (String a (s1 +:+ t) = String b (s2 +:+ t)) in H.
    injection H as -> H. by rewrite (IH s2 H).
Qed.

Lemma getattr_phase (self : L2D.L2DPolicy) (phase : string) :
  L2D.getattr self (phase +:+ "_decode_type")
  = if decide (phase = "train") then Ok (L2D.train_decode_type self)
    else if decide (phase = "val") then Ok (L2D.val_decode_type self)
    else if decide (phase = "test") then Ok (L2D.test_decode_type self)
    else Error AttributeError.
Proof.
  unfold L2D.getattr.
  repeat case_decide; subst; try done;
    match goal with
    | H : _ +:+ _ = _ |- _ =>
        apply (string_app_inj_r "_decode_type" _ "train") in H
        || apply (string_app_inj_r "_decode_type" _ "val") in H
        || apply (string_app_inj_r "_decode_type" _ "test") in H
    end; done.
Qed.

Section PolicyProperties.

Context {Env Tensor : Type}.
Variable get_env : string → result Env.
Variable decoder :
  gmap string Tensor → Env → gmap string L2D.kwarg
  → result (Tensor * Tensor * gmap string Tensor).
Variable get_log_likelihood : Tensor → Tensor → option Tensor → result Tensor.
Variable entropy : Tensor → Tensor.

Local Abbreviation forward :=
  (L2D.forward Env Tensor get_env decoder get_log_likelihood entropy).

(** X19. With a decode type among the keyword arguments (one that is not
    [None]), [forward] depends neither on the phase nor on the decode
    types of the policy: a phase without a decode type of its own is
    accepted. *)
Theorem forward_decode_type_given (self self' : L2D.L2DPolicy)
    (td : gmap string Tensor) (env : L2D.env_arg Env) (phase phase' : string)
    (return_actions return_entropy : bool)
    (decoder_kwargs : gmap string L2D.kwarg) :
  default L2D.KNone (decoder_kwargs !! "decode_type") ≠ L2D.KNone →
  L2D.env_name self' = L2D.env_name self →
  forward self td env phase return_actions return_entropy decoder_kwargs
  = forward self' td env phase' return_actions return_entropy decoder_kwargs.
Proof.
  intros Hk Hn. unfold L2D.forward. rewrite Hn.
  by rewrite !decide_False by done.
Qed.

(** X20. Without a decode type among the keyword arguments (absent, or
    [None]), the phases [train], [val] and [test] stand for the decode
    type the policy has for them, and with any other phase [forward]
    raises [AttributeError] once the environment is there, before the
    decoder is called. *)
Theorem forward_decode_type_of_phase (self : L2D.L2DPolicy)
    (td : gmap string Tensor) (env : L2D.env_arg Env) (phase : string)
    (return_actions return_entropy : bool)
    (decoder_kwargs : gmap string L2D.kwarg) :
  default L2D.KNone (decoder_kwargs !! "decode_type") = L2D.KNone →
  let given decode_type :=
    forward self td env phase return_actions return_entropy
      (<["decode_type" := L2D.KStr decode_type]> decoder_kwargs) in
  forward self td env phase return_actions return_entropy decoder_kwargs
  = if decide (phase = "train") then given (L2D.train_decode_type self)
    else if decide (phase = "val") then given (L2D.val_decode_type self)
    else if decide (phase = "test") then given (L2D.test_decode_type self)
    else match env with
         | L2D.EnvNone => get_env (L2D.env_name self)
         | L2D.EnvName name => get_env name
         | L2D.EnvObj env => Ok env
         end ≫= λ _, Error AttributeError.
Proof.
  intros Hk given. unfold given, L2D.forward.
  rewrite decide_True by done. rewrite getattr_phase.
  rewrite !lookup_insert_eq. simpl.
  repeat case_decide; try done;
    destruct env as [|name|e]; simpl; try destruct (get_env _); done.
Qed.

(** X21. The dict that [forward] returns has the keys [reward] and
    [log_likelihood], the key [actions] exactly with [return_actions]
    and the key [entropy] exactly with [return_entropy], and no other
    key. *)
Theorem forward_out_keys (self : L2D.L2DPolicy)
    (td : gmap string Tensor) (env : L2D.env_arg Env) (phase : string)
    (return_actions return_entropy : bool)
    (decoder_kwargs : gmap string L2D.kwarg) (out : gmap string Tensor) :
  forward self td env phase return_actions return_entropy decoder_kwargs
    = Ok out →
  dom out = {["reward"; "log_likelihood"]}
            ∪ (if return_actions then {["actions"]} else ∅)
            ∪ (if return_entropy then {["entropy"]} else ∅).
Proof.
  unfold L2D.forward. intros H.
  repeat match type of H with
  | mbind _ ?m = Ok _ => destruct m as [?|?] eqn:?; simpl in H; [|done]
  | context [let '(_, _) := ?p in _] => destruct p as [[? ?] ?]
  end.
  injection H as <-.
  destruct return_actions, return_entropy; rewrite ?dom_insert_L, dom_empty_L;
    set_solver.
Qed.

End PolicyProperties.

Lemma forward_decode_type_given_witness :
  L2D.forward string L2D.kwarg L2D.example_get_env L2D.example_decoder
    L2D.example_log_likelihood id L2D.example_policy ∅ L2D.EnvNone
    "rollout" true false (<["decode_type" := L2D.KStr "greedy"]> ∅)
  = L2D.forward string L2D.kwarg L2D.example_get_env L2D.example_decoder
      L2D.example_log_likelihood id L2D.example_policy ∅ L2D.EnvNone
      "val" true false (<["decode_type" := L2D.KStr "greedy"]> ∅).
Proof. by apply forward_decode_type_given. Defined.

Lemma forward_decode_type_of_phase_witness :
  L2D.forward string L2D.kwarg L2D.example_get_env L2D.example_decoder
    L2D.example_log_likelihood id L2D.example_policy ∅ L2D.EnvNone
    "rollout" true false (<["decode_type" := L2D.KNone]> ∅)
  = Error AttributeError.
Proof.
  rewrite (forward_decode_type_of_phase L2D.example_get_env
             L2D.example_decoder L2D.example_log_likelihood id
             L2D.example_policy ∅ L2D.EnvNone "rollout" true false
             (<["decode_type" := L2D.KNone]> ∅));
    vm_compute; reflexivity.
Defined.

Lemma forward_out_keys_witness :
  dom (<["actions" := L2D.KStr "greedy"]>
         (<["log_likelihood" := L2D.KInt 0]>
            (<["reward" := L2D.KInt (-7)]> (∅ : gmap string L2D.kwarg))))
  = ({["reward"; "log_likelihood"]} ∪ {["actions"]} ∪ ∅ : gset string).
Proof.
  by apply (forward_out_keys L2D.example_get_env L2D.example_decoder
              L2D.example_log_likelihood id L2D.example_policy ∅
              L2D.EnvNone "val" true false ∅).
Defined.

(** * Properties of the GCN encoder *)

Import GCN.

Lemma zip_with_replicate_l {A B C} (f : A → B → C) (x : A) (l : list B) :
  zip_with f (replicate (length l) x) l = f x <$> l.
Proof. induction l as [|y l IH]; [done|]. simpl. by rewrite IH. Qed.

Lemma zip_with_replicate_r {A B C} (f : A → B → C) (l : list A) (y : B) :
  zip_with f l (replicate (length l) y) = (λ x, f x y) <$> l.
Proof. induction l as [|x l IH]; [done|]. simpl. by rewrite IH. Qed.

Lemma fmap_replicate_const {A B} (y : B) (l : list A) :
  (λ _, y) <$> l = replicate (length l) y.
Proof. induction l as [|x l IH]; [done|]. simpl. by f_equal. Qed.

Lemma fmap_const_Forall {A B} (f : A → B) (y : B) (l : list A) :
  Forall (λ x, f x = y) l → f <$> l = replicate (length l) y.
Proof. induction 1 as [|x l Hx _ IH]; [done|]. simpl. by f_equal. Qed.

Lemma dot_zero (k : nat) (ys : list Qc) : dot (replicate k 0%Qc) ys = 0%Qc.
Proof.
  unfold dot. revert ys. induction k as [|k IH]; intros [|y ys]; try done.
  simpl. rewrite IH. ring.
Qed.

Lemma zeros_shaped (n d : nat) : shaped n d (zeros n d).
Proof.
  split_and!; simpl; [done | by rewrite length_replicate |].
  apply Forall_replicate. by rewrite length_replicate.
Qed.

Lemma mm_shaped (n k d : nat) (a b : matrix) :
  shaped n k a → shaped k d b → ∃ c, mm a b = Ok c ∧ shaped n d c.
Proof.
  intros (Ha1 & Ha2 & Ha3) (Hb1 & Hb2 & Hb3). unfold mm.
  rewrite decide_True by congruence. eexists. split; [done|].
  split_and!; simpl; [done | by rewrite length_fmap |].
  apply Forall_fmap, Forall_forall. intros r _. simpl.
  by rewrite length_fmap, length_seq.
Qed.

Lemma mm_zeros (n k d : nat) (b : matrix) :
  shaped k d b → mm (zeros n k) b = Ok (zeros n d).
Proof.
  intros (Hb1 & Hb2 & Hb3). unfold mm, zeros. simpl.
  rewrite decide_True by done. do 2 f_equal; [done|].
  rewrite fmap_replicate. f_equal. rewrite Hb1.
  transitivity (replicate (length (seq 0 d)) 0%Qc); [|by rewrite length_seq].
  apply fmap_const_Forall, Forall_forall. intros j _. apply dot_zero.
Qed.

Lemma add_bias_shaped (n d : nat) (m : matrix) (b : list Qc) :
  shaped n d m → length b = d → ∃ c, add_bias m b = Ok c ∧ shaped n d c.
Proof.
  intros (Hm1 & Hm2 & Hm3) Hb. unfold add_bias.
  rewrite decide_True by congruence. eexists. split; [done|].
  split_and!; simpl; [done | by rewrite length_fmap |].
  apply Forall_fmap. eapply Forall_impl; [exact Hm3|]. intros r Hr. simpl in *.
  rewrite length_zip_with. lia.
Qed.

Lemma zip_with_zeros_l (b : list Qc) :
  zip_with Qcplus (replicate (length b) 0%Qc) b = b.
Proof.
  induction b as [|x b IH]; [done|]. simpl. rewrite IH. f_equal. ring.
Qed.

Lemma add_bias_zeros (n d : nat) (b : list Qc) :
  length b = d → add_bias (zeros n d) b = Ok (Matrix d (replicate n b)).
Proof.
  intros Hb. unfold add_bias, zeros. simpl. rewrite decide_True by done.
  do 2 f_equal. rewrite fmap_replicate. f_equal. subst d.
  apply zip_with_zeros_l.
Qed.

Lemma relu_shaped (n d : nat) (m : matrix) : shaped n d m → shaped n d (relu m).
Proof.
  intros (Hm1 & Hm2 & Hm3). split_and!; simpl; [done | by rewrite length_fmap |].
  apply Forall_fmap. eapply Forall_impl; [exact Hm3|]. intros r Hr. simpl.
  by rewrite length_fmap.
Qed.

Lemma madd_shaped (n d : nat) (a b : matrix) :
  shaped n d a → shaped n d b → ∃ c, madd a b = Ok c ∧ shaped n d c.
Proof.
  intros (Ha1 & Ha2 & Ha3) (Hb1 & Hb2 & Hb3). unfold madd.
  rewrite decide_True by (split; congruence). eexists. split; [done|].
  split_and!; simpl; [done | rewrite length_zip_with; lia |].
  apply Forall_forall. intros r Hr.
  apply elem_of_lookup_zip_with in Hr as (i & x & y & -> & Hx & Hy).
  rewrite length_zip_with.
  rewrite (Forall_lookup_1 _ _ _ _ Ha3 Hx), (Forall_lookup_1 _ _ _ _ Hb3 Hy). lia.
Qed.

Lemma madd_replicate (n d : nat) (b : list Qc) (m : matrix) :
  shaped n d m →
  madd (Matrix d (replicate n b)) m
  = Ok (Matrix d ((λ r, zip_with Qcplus b r) <$> rows m)).
Proof.
  intros (Hm1 & Hm2 & Hm3). unfold madd. simpl.
  rewrite decide_True by (rewrite length_replicate; split; congruence).
  do 2 f_equal. rewrite <-Hm2. apply zip_with_replicate_l.
Qed.

Lemma masked_fill_shaped (n : nat) (adj : matrix) (mask : list (list bool)) :
  shaped n n adj → length mask = n → Forall (λ r, length r = n) mask →
  ∃ c, masked_fill adj mask = Ok c ∧ shaped n n c.
Proof.
  intros (Ha1 & Ha2 & Ha3) Hm1 Hm2. unfold masked_fill.
  rewrite decide_True by (split; [congruence | by rewrite Ha1]).
  eexists. split; [done|].
  split_and!; simpl; [done | rewrite length_zip_with; lia |].
  apply Forall_forall. intros r Hr.
  apply elem_of_lookup_zip_with in Hr as (i & x & y & -> & Hx & Hy).
  rewrite length_zip_with.
  rewrite (Forall_lookup_1 _ _ _ _ Ha3 Hx), (Forall_lookup_1 _ _ _ _ Hm2 Hy). lia.
Qed.

Lemma masked_rows (k : nat) (rs : list (list Qc)) :
  Forall (λ r, length r = k) rs →
  zip_with (zip_with (λ x (b : bool), if b then 0%Qc else x)) rs
    (replicate (length rs) (replicate k true))
  = replicate (length rs) (replicate k 0%Qc).
Proof.
  intros Hrs. rewrite zip_with_replicate_r. apply fmap_const_Forall.
  eapply Forall_impl; [exact Hrs|]. intros r Hr. simpl in *. subst k.
  rewrite zip_with_replicate_r. apply fmap_replicate_const.
Qed.

Lemma masked_fill_all (n : nat) (adj : matrix) :
  shaped n n adj →
  masked_fill adj (replicate n (replicate n true)) = Ok (zeros n n).
Proof.
  destruct adj as [c rs]. intros (Ha1 & Ha2 & Ha3). simpl in *. subst c.
  unfold masked_fill, zeros. simpl. rewrite decide_True.
  2:{ rewrite length_replicate. split; [done|]. apply Forall_replicate.
      by rewrite length_replicate. }
  do 2 f_equal. rewrite <-Ha2 at 1 3. by apply masked_rows.
Qed.

Lemma py_init_snoc {A} (l : list A) (x : A) : py_init (l ++ [x]) = l.
Proof.
  unfold py_init. rewrite length_app. simpl.
  replace (length l + 1 - 1)%nat with (length l) by lia.
  by rewrite take_app_length.
Qed.

Lemma py_getitem_last {A} (l : list A) (x : A) :
  py_getitem (l ++ [x]) (-1) = Ok x.
Proof.
  unfold py_getitem. rewrite length_app. cbn [length].
  destruct (decide (-1 < 0)) as [_|?]; [|lia].
  destruct (decide (0 ≤ Z.of_nat (length l + 1) + -1 < Z.of_nat (length l + 1)))
    as [_|?]; [|lia].
  replace (Z.to_nat (Z.of_nat (length l + 1) + -1)) with (length l) by lia.
  by rewrite list_lookup_middle.
Qed.

Lemma snoc_cases {A} (l : list A) : l ≠ [] → ∃ l' x, l = l' ++ [x].
Proof.
  induction l as [|x l _] using rev_ind; [done | eauto].
Qed.

Lemma GraphConvolution_forward_shaped (n d : nat)
    (layer : GraphConvolution.t) (input adj : matrix) :
  GraphConvolution.built d d layer → shaped n d input → shaped n n adj →
  ∃ output, GraphConvolution.forward layer input adj = Ok output
            ∧ shaped n d output.
Proof.
  intros (Hw & b & Hb & Hlb) Hin Hadj. unfold GraphConvolution.forward, spmm.
  destruct (mm_shaped n d d input _ Hin Hw) as (s & -> & Hs). simpl.
  destruct (mm_shaped n n d adj s Hadj Hs) as (o & -> & Ho). simpl.
  rewrite Hb. by apply add_bias_shaped.
Qed.

Lemma GraphConvolution_forward_zeros (n d : nat)
    (layer : GraphConvolution.t) (input : matrix) (b : list Qc) :
  GraphConvolution.built d d layer → GraphConvolution.bias layer = Some b →
  shaped n d input →
  GraphConvolution.forward layer input (zeros n n)
  = Ok (Matrix d (replicate n b)).
Proof.
  intros (Hw & b' & Hb' & Hlb) Hb Hin. unfold GraphConvolution.forward, spmm.
  destruct (mm_shaped n d d input _ Hin Hw) as (s & -> & Hs). simpl.
  rewrite (mm_zeros n n d s Hs). simpl. rewrite Hb.
  apply add_bias_zeros. congruence.
Qed.

Section Encoder.

Variable init_embedding : gmap string matrix → result matrix.
Variable F_dropout : nat → matrix → matrix.

Local Abbreviation hidden_layers :=
  (GCNEncoder.hidden_layers F_dropout).
Local Abbreviation forward := (GCNEncoder.forward init_embedding F_dropout).

Lemma hidden_layers_shaped (n d : nat) (self : GCNEncoder.t)
    (layers : list GraphConvolution.t) (i : nat) (u adj : matrix) :
  (∀ i m, shaped n d m → shaped n d (F_dropout i m)) →
  Forall (GraphConvolution.built d d) layers →
  shaped n d u → shaped n n adj →
  ∃ v, hidden_layers self layers i u adj = Ok v ∧ shaped n d v.
Proof.
  intros Hdrop Hlayers. revert i u.
  induction Hlayers as [|layer layers Hl _ IH]; intros i u Hu Hadj; simpl.
  - eauto.
  - destruct (GraphConvolution_forward_shaped n d layer u adj Hl Hu Hadj)
      as (v & -> & Hv). simpl. apply IH; [|done].
    destruct (GCNEncoder.training self); [apply Hdrop|]; by apply relu_shaped.
Qed.

(** X22. An encoder without layers cannot encode: [forward] returns for
    no input, and once the initial embedding and the adjacency are there
    it raises [IndexError]. *)
Theorem forward_no_layers (self : GCNEncoder.t) (td : gmap string matrix)
    (mask : option (list (list bool))) :
  GCNEncoder.gcn_layers self = [] →
  (∀ out, forward self td mask ≠ Ok out)
  ∧ (is_Ok (init_embedding td) → is_Some (td !! GCNEncoder.adj_key self) →
     mask = None → forward self td mask = Error IndexError).
Proof.
  intros Hl. unfold GCNEncoder.forward. rewrite Hl. split.
  - intros out. destruct (init_embedding td); [|done]. simpl.
    destruct (td !! _); [|done]. simpl.
    destruct mask as [mask|]; simpl; [destruct (masked_fill _ _); done | done].
  - intros [h ->] [adj ->] ->. done.
Qed.

(** X23. On inputs of matching shapes an encoder with at least one layer
    returns: with layers as [__init__] builds them, an initial embedding
    of shape [n, d], an adjacency of shape [n, n], no mask or one of the
    shape of the adjacency, and a dropout that keeps the shape, [forward]
    gives node features of shape [n, d], beside the initial embedding. *)
Theorem forward_shape (n d : nat) (self : GCNEncoder.t)
    (td : gmap string matrix) (mask : option (list (list bool)))
    (init_h adj : matrix) :
  GCNEncoder.gcn_layers self ≠ [] →
  Forall (GraphConvolution.built d d) (GCNEncoder.gcn_layers self) →
  init_embedding td = Ok init_h → shaped n d init_h →
  td !! GCNEncoder.adj_key self = Some adj → shaped n n adj →
  (∀ m, mask = Some m → length m = n ∧ Forall (λ r, length r = n) m) →
  (∀ i m, shaped n d m → shaped n d (F_dropout i m)) →
  ∃ h, forward self td mask = Ok (h, init_h) ∧ shaped n d h.
Proof.
  intros Hne Hlayers Hinit Hh Hadj Hsadj Hmask Hdrop.
  destruct (snoc_cases _ Hne) as (layers & last & Hl).
  unfold GCNEncoder.forward. rewrite Hinit, Hadj, Hl. simpl.
  rewrite Hl in Hlayers. apply Forall_app in Hlayers as [Hlayers Hlast].
  rewrite Forall_singleton in Hlast.
  assert (∃ adj', match mask with
                  | Some mask => masked_fill adj mask
                  | None => Ok adj
                  end = Ok adj' ∧ shaped n n adj') as (adj' & -> & Hadj').
  { destruct mask as [m|]; [|eauto].
    destruct (Hmask m eq_refl). by apply masked_fill_shaped. }
  simpl. rewrite py_init_snoc, py_getitem_last.
  destruct (hidden_layers_shaped n d self layers 0 init_h adj' Hdrop Hlayers
              Hh Hadj') as (u & -> & Hu). simpl.
  destruct (GraphConvolution_forward_shaped n d last u adj' Hlast Hu Hadj')
    as (v & -> & Hv). simpl.
  destruct (GCNEncoder.residual self); simpl; [|eauto].
  destruct (madd_shaped n d v init_h Hv Hh) as (w & -> & Hw). simpl. eauto.
Qed.

(** X24. Without edges the encoder forgets the graph: when every entry of
    the adjacency is 0, or every entry is masked, the node features that
    [forward] returns are the bias of the last layer, added to the
    initial embedding of the node if the encoder is residual, whatever
    the other layers, the weights and the dropout are. *)
Theorem forward_no_edges (n d : nat) (self : GCNEncoder.t)
    (td : gmap string matrix) (mask : option (list (list bool)))
    (init_h adj : matrix) (layers : list GraphConvolution.t)
    (last : GraphConvolution.t) (b : list Qc) :
  GCNEncoder.gcn_layers self = layers ++ [last] →
  Forall (GraphConvolution.built d d) (GCNEncoder.gcn_layers self) →
  GraphConvolution.bias last = Some b →
  init_embedding td = Ok init_h → shaped n d init_h →
  td !! GCNEncoder.adj_key self = Some adj → shaped n n adj →
  (mask = None ∧ adj = zeros n n)
  ∨ mask = Some (replicate n (replicate n true)) →
  (∀ i m, shaped n d m → shaped n d (F_dropout i m)) →
  forward self td mask
  = Ok (Matrix d (if GCNEncoder.residual self
                  then (λ r, zip_with Qcplus b r) <$> rows init_h
                  else replicate n b),
        init_h).
Proof.
  intros Hl Hlayers Hb Hinit Hh Hadj Hsadj Hzero Hdrop.
  unfold GCNEncoder.forward. rewrite Hinit, Hadj, Hl. simpl.
  rewrite Hl in Hlayers. apply Forall_app in Hlayers as [Hlayers Hlast].
  rewrite Forall_singleton in Hlast.
  assert (match mask with
          | Some mask => masked_fill adj mask
          | None => Ok adj
          end = Ok (zeros n n)) as ->.
  { destruct Hzero as [[-> ->]| ->]; [done | by apply masked_fill_all]. }
  simpl. rewrite py_init_snoc, py_getitem_last.
  destruct (hidden_layers_shaped n d self layers 0 init_h (zeros n n) Hdrop
              Hlayers Hh (zeros_shaped n n)) as (u & -> & Hu). simpl.
  rewrite (GraphConvolution_forward_zeros n d last u b Hlast Hb Hu). simpl.
  destruct (GCNEncoder.residual self); simpl; [|done].
  by rewrite (madd_replicate n d b init_h Hh).
Qed.

End Encoder.

Lemma example_layer_built (b : Z) :
  GraphConvolution.built 2 2 (example_layer b).
Proof.
  split; [split_and!; [done | done | by repeat constructor]|].
  eexists. split; reflexivity.
Qed.

Lemma example_dropout_shaped (n d i : nat) (m : matrix) :
  shaped n d m → shaped n d (example_dropout i m).
Proof.
  intros (Hm1 & Hm2 & Hm3). split_and!; simpl; [done | by rewrite length_fmap |].
  apply Forall_fmap. eapply Forall_impl; [exact Hm3|]. intros r Hr. simpl.
  by rewrite length_fmap.
Qed.

Lemma forward_no_layers_witness :
  GCNEncoder.forward example_init_embedding example_dropout
    (example_encoder []) example_td None = Error IndexError.
Proof.
  apply (forward_no_layers example_init_embedding example_dropout
           (example_encoder []) example_td None eq_refl);
    [by eexists | by eexists | done].
Defined.

Lemma forward_shape_witness :
  ∃ h, GCNEncoder.forward example_init_embedding example_dropout
         (example_encoder [example_layer 1; example_layer 5]) example_td None
       = Ok (h, example_h)
    ∧ shaped 2 2 h.
Proof.
  apply (forward_shape example_init_embedding example_dropout 2 2
           (example_encoder [example_layer 1; example_layer 5]) example_td
           None example_h example_adj).
  - done.
  - repeat constructor; apply example_layer_built.
  - vm_compute; reflexivity.
  - split_and!; [done | done | by repeat constructor].
  - vm_compute; reflexivity.
  - split_and!; [done | done | by repeat constructor].
  - intros m [=].
  - intros i m. apply example_dropout_shaped.
Defined.

Lemma forward_no_edges_witness :
  GCNEncoder.forward example_init_embedding example_dropout
    (example_encoder [example_layer 1; example_layer 5]) example_td
    (Some [[true; true]; [true; true]])
  = Ok (Matrix 2 ((λ r, zip_with Qcplus [Qc_of_Z 5; Qc_of_Z 6] r)
                    <$> rows example_h),
        example_h).
Proof.
  apply (forward_no_edges example_init_embedding example_dropout 2 2
           (example_encoder [example_layer 1; example_layer 5]) example_td
           (Some [[true; true]; [true; true]]) example_h example_adj
           [example_layer 1] (example_layer 5) [Qc_of_Z 5; Qc_of_Z 6]).
  - done.
  - repeat constructor; apply example_layer_built.
  - done.
  - vm_compute; reflexivity.
  - split_and!; [done | done | by repeat constructor].
  - vm_compute; reflexivity.
  - split_and!; [done | done | by repeat constructor].
  - by right.
  - intros i m. apply example_dropout_shaped.
Defined.
